(** * Voting and aggregate score of the forum backend

    A shallow embedding of the vote handling of [src/routes/posts.js],
    the comments router ([src/unnamed/part_000]), the Vote model
    ([src/models/Vote.js]) and [calculateKarma] ([src/routes/users.js]).

    The route handlers are [async] functions: every [await] hands control
    back to the event loop, so two requests interleave at the granularity
    of one database operation.  A handler is therefore embedded as a tree
    of database operations ([prog]); [run] executes one handler to
    completion, [exec] executes a pool of handlers under a schedule. *)

From Stdlib Require Import ZArith String List Bool Lia Arith.
Import ListNotations.
Open Scope string_scope.
Open Scope Z_scope.

(** ** Data model *)

(** A MongoDB ObjectId.  Drivers generate them so that no two generated
    ids coincide; the model draws them from a counter kept in the state. *)
Definition ObjectId := nat.
Bind Scope nat_scope with ObjectId.

(** Value of [Date.now]. *)
Definition Time := nat.
Bind Scope nat_scope with Time.

(** [itemType]: the schema's enum of the strings 'post' and 'comment'. *)
Inductive ItemType := post_t | comment_t.

Definition ItemType_eqb (a b : ItemType) : bool :=
  match a, b with
  | post_t, post_t | comment_t, comment_t => true
  | _, _ => false
  end.

(** A document of the Vote collection ([VoteSchema], src/models/Vote.js). *)
Record Vote := mkVote {
  vote_id : ObjectId;            (* _id *)
  vote_user : ObjectId;          (* user *)
  vote_item : ObjectId;          (* item *)
  vote_itemType : ItemType;      (* itemType *)
  vote_value : Z;                (* value *)
  vote_createdAt : Time          (* createdAt, default Date.now *)
}.

(** Modelled from the spec: the Post model (models/Post.js is not among the
    sources).  The fields are the ones the handlers of src/routes/posts.js
    read and write: title, content, author, community, votes (the spec's
    score), isEdited, and the creation time the spec lists for an item. *)
Record Post := mkPost {
  post_id : ObjectId;
  post_title : string;
  post_content : string;
  post_author : ObjectId;
  post_community : string;
  post_votes : Z;
  post_isEdited : bool;
  post_createdAt : Time
}.

(** Modelled from the spec: the Comment model (models/Comment.js is not among
    the sources).  The fields are the ones the handlers read and write:
    content, author, post (the parent), votes (the spec's score), isEdited,
    and the creation time. *)
Record Comment := mkComment {
  comment_id : ObjectId;
  comment_content : string;
  comment_author : ObjectId;
  comment_post : ObjectId;
  comment_votes : Z;
  comment_isEdited : bool;
  comment_createdAt : Time
}.

(** The database, the id generator and the clock.  A collection is the list
    of its documents in insertion order.  Communities are kept by name only
    (models/Community.js is not among the sources; the handlers here only
    look a community up by name). *)
Record State := mkState {
  posts : list Post;
  comments : list Comment;
  votes : list Vote;
  communities : list string;
  nextId : ObjectId;
  clock : Time;
  connected : bool
}.

Definition set_posts (s : State) (l : list Post) : State :=
  mkState l (comments s) (votes s) (communities s) (nextId s) (clock s) (connected s).
Definition set_comments (s : State) (l : list Comment) : State :=
  mkState (posts s) l (votes s) (communities s) (nextId s) (clock s) (connected s).
Definition set_votes (s : State) (l : list Vote) : State :=
  mkState (posts s) (comments s) l (communities s) (nextId s) (clock s) (connected s).
Definition set_nextId (s : State) (n : ObjectId) : State :=
  mkState (posts s) (comments s) (votes s) (communities s) n (clock s) (connected s).
Definition set_clock (s : State) (t : Time) : State :=
  mkState (posts s) (comments s) (votes s) (communities s) (nextId s) t (connected s).
Definition set_connected (s : State) (b : bool) : State :=
  mkState (posts s) (comments s) (votes s) (communities s) (nextId s) (clock s) b.

(** Assignments to document fields ([post.votes = ...], [vote.value = ...]). *)
Definition post_with_votes (p : Post) (v : Z) : Post :=
  mkPost (post_id p) (post_title p) (post_content p) (post_author p)
         (post_community p) v (post_isEdited p) (post_createdAt p).
Definition post_with_edit (p : Post) (title content : string) : Post :=
  mkPost (post_id p) title content (post_author p)
         (post_community p) (post_votes p) true (post_createdAt p).
Definition comment_with_votes (c : Comment) (v : Z) : Comment :=
  mkComment (comment_id c) (comment_content c) (comment_author c) (comment_post c)
            v (comment_isEdited c) (comment_createdAt c).
Definition comment_with_edit (c : Comment) (content : string) : Comment :=
  mkComment (comment_id c) content (comment_author c) (comment_post c)
            (comment_votes c) true (comment_createdAt c).
Definition vote_with_value (v : Vote) (x : Z) : Vote :=
  mkVote (vote_id v) (vote_user v) (vote_item v) (vote_itemType v) x (vote_createdAt v).

(** ** Errors and results of database operations *)

Inductive error :=
| CastError_ObjectId      (* err.kind === 'ObjectId': the id string is malformed *)
| DuplicateKey            (* E11000, a unique index is violated *)
| ValidationError         (* a schema validator rejects the document *)
| DocumentNotFound        (* save() of a loaded document that is gone *)
| StoreUnavailable.       (* the connection is down *)

Definition kind_is_ObjectId (e : error) : bool :=
  match e with CastError_ObjectId => true | _ => false end.

Inductive result (X : Type) :=
| Ok (x : X)
| Err (e : error).
Arguments Ok {X} x.
Arguments Err {X} e.

(** ** The Vote schema *)

(** [enum: [-1, 1]] on [value]. *)
Definition VoteSchema_value_enum (x : Z) : bool := (x =? -1) || (x =? 1).

(** [VoteSchema.index({ user: 1, item: 1 }, { unique: true })]: the key of a
    document in the unique index. *)
Definition same_user_item (u i : ObjectId) (v : Vote) : bool :=
  (vote_user v =? u)%nat && (vote_item v =? i)%nat.

(** The filter [{ user, item, itemType }] of [Vote.findOne]. *)
Definition vote_matches (u i : ObjectId) (k : ItemType) (v : Vote) : bool :=
  (vote_user v =? u)%nat && (vote_item v =? i)%nat && ItemType_eqb (vote_itemType v) k.

(** The filter [{ item, itemType }] of [Vote.deleteMany]. *)
Definition vote_on (i : ObjectId) (k : ItemType) (v : Vote) : bool :=
  (vote_item v =? i)%nat && ItemType_eqb (vote_itemType v) k.

(** ** Database operations

    One constructor per operation the handlers [await], indexed by the type
    of what the operation resolves to.  [New] is the construction of a model
    instance ([new Post(...)], [new Vote(...)]): it draws the [_id] and reads
    the clock for the [createdAt] default; it does not touch the database. *)
Inductive eff : Type -> Type :=
| New : eff (ObjectId * Time)
| Community_findOne (name : string) : eff (option string)
| Post_findById (id : option ObjectId) : eff (option Post)
| Post_find_author (author : ObjectId) : eff (list Post)
| Post_insert (doc : Post) : eff Post
| Post_save (loaded doc : Post) : eff Post
| Post_remove (doc : Post) : eff unit
| Comment_findById (id : option ObjectId) : eff (option Comment)
| Comment_find_author (author : ObjectId) : eff (list Comment)
| Comment_insert (doc : Comment) : eff Comment
| Comment_save (loaded doc : Comment) : eff Comment
| Comment_remove (doc : Comment) : eff unit
| Comment_deleteMany_post (p : ObjectId) : eff unit
| Comment_populate_author (doc : Comment) : eff unit
| Vote_findOne (user item : ObjectId) (itemType : ItemType) : eff (option Vote)
| Vote_insert (doc : Vote) : eff unit
| Vote_save (loaded doc : Vote) : eff unit
| Vote_remove (doc : Vote) : eff unit
| Vote_deleteMany (item : ObjectId) (itemType : ItemType) : eff unit.

(** [save()] of a loaded document writes the modified paths only: a field of
    the stored document is overwritten when the in-memory document differs
    there from what was loaded.  With no modified path [save()] writes
    nothing, but still asks the server whether the document exists: it
    rejects when the document is gone or the connection is down. *)
Definition pick {A} (eqb : A -> A -> bool) (loaded doc stored : A) : A :=
  if eqb loaded doc then stored else doc.

Definition post_modified (loaded doc : Post) : bool :=
  negb ((post_title loaded =? post_title doc)%string
        && (post_content loaded =? post_content doc)%string
        && Bool.eqb (post_isEdited loaded) (post_isEdited doc)
        && (post_votes loaded =? post_votes doc)).

Definition post_write (loaded doc stored : Post) : Post :=
  if (post_id stored =? post_id doc)%nat then
    mkPost (post_id stored)
           (pick String.eqb (post_title loaded) (post_title doc) (post_title stored))
           (pick String.eqb (post_content loaded) (post_content doc) (post_content stored))
           (post_author stored) (post_community stored)
           (pick Z.eqb (post_votes loaded) (post_votes doc) (post_votes stored))
           (pick Bool.eqb (post_isEdited loaded) (post_isEdited doc) (post_isEdited stored))
           (post_createdAt stored)
  else stored.

Definition comment_modified (loaded doc : Comment) : bool :=
  negb ((comment_content loaded =? comment_content doc)%string
        && Bool.eqb (comment_isEdited loaded) (comment_isEdited doc)
        && (comment_votes loaded =? comment_votes doc)).

Definition comment_write (loaded doc stored : Comment) : Comment :=
  if (comment_id stored =? comment_id doc)%nat then
    mkComment (comment_id stored)
              (pick String.eqb (comment_content loaded) (comment_content doc) (comment_content stored))
              (comment_author stored) (comment_post stored)
              (pick Z.eqb (comment_votes loaded) (comment_votes doc) (comment_votes stored))
              (pick Bool.eqb (comment_isEdited loaded) (comment_isEdited doc) (comment_isEdited stored))
              (comment_createdAt stored)
  else stored.

Definition vote_write (doc stored : Vote) : Vote :=
  if (vote_id stored =? vote_id doc)%nat
  then vote_with_value stored (vote_value doc)
  else stored.

Definition has_post (id : ObjectId) (l : list Post) : bool :=
  existsb (fun p => (post_id p =? id)%nat) l.
Definition has_comment (id : ObjectId) (l : list Comment) : bool :=
  existsb (fun c => (comment_id c =? id)%nat) l.
Definition has_vote (id : ObjectId) (l : list Vote) : bool :=
  existsb (fun v => (vote_id v =? id)%nat) l.

(** An operation that reaches the server rejects when the connection is
    down, and leaves the database as it was. *)
Definition online {X} (s : State) (r : result X * State) : result X * State :=
  if connected s then r else (Err StoreUnavailable, s).

(** What one operation does.  Casting the id of [findById] and validating a
    document against its schema happen in the driver, before the operation is
    sent; constructing a model instance never fails. *)
Definition sem {X} (o : eff X) (s : State) : result X * State :=
  match o in eff X return result X * State with
  | New => (Ok (nextId s, clock s), set_nextId s (S (nextId s)))
  | Community_findOne name =>
      online s (Ok (find (String.eqb name) (communities s)), s)
  | Post_findById id =>
      match id with
      | None => (Err CastError_ObjectId, s)
      | Some i => online s (Ok (find (fun p => (post_id p =? i)%nat) (posts s)), s)
      end
  | Post_find_author a =>
      online s (Ok (filter (fun p => (post_author p =? a)%nat) (posts s)), s)
  | Post_insert doc =>
      online s
        (if has_post (post_id doc) (posts s) then (Err DuplicateKey, s)
         else (Ok doc, set_posts s (posts s ++ [doc])))
  | Post_save loaded doc =>
      online s
        (if has_post (post_id doc) (posts s)
         then (Ok doc,
               if post_modified loaded doc
               then set_posts s (map (post_write loaded doc) (posts s))
               else s)
         else (Err DocumentNotFound, s))
  | Post_remove doc =>
      online s
        (Ok tt, set_posts s (filter (fun p => negb (post_id p =? post_id doc)%nat) (posts s)))
  | Comment_findById id =>
      match id with
      | None => (Err CastError_ObjectId, s)
      | Some i => online s (Ok (find (fun c => (comment_id c =? i)%nat) (comments s)), s)
      end
  | Comment_find_author a =>
      online s (Ok (filter (fun c => (comment_author c =? a)%nat) (comments s)), s)
  | Comment_insert doc =>
      online s
        (if has_comment (comment_id doc) (comments s) then (Err DuplicateKey, s)
         else (Ok doc, set_comments s (comments s ++ [doc])))
  | Comment_save loaded doc =>
      online s
        (if has_comment (comment_id doc) (comments s)
         then (Ok doc,
               if comment_modified loaded doc
               then set_comments s (map (comment_write loaded doc) (comments s))
               else s)
         else (Err DocumentNotFound, s))
  | Comment_remove doc =>
      online s
        (Ok tt, set_comments s
                  (filter (fun c => negb (comment_id c =? comment_id doc)%nat) (comments s)))
  | Comment_deleteMany_post p =>
      online s
        (Ok tt, set_comments s
                  (filter (fun c => negb (comment_post c =? p)%nat) (comments s)))
  | Comment_populate_author _ => online s (Ok tt, s)
  | Vote_findOne u i k =>
      online s (Ok (find (vote_matches u i k) (votes s)), s)
  | Vote_insert doc =>
      if negb (VoteSchema_value_enum (vote_value doc)) then (Err ValidationError, s)
      else
        online s
          (if has_vote (vote_id doc) (votes s) then (Err DuplicateKey, s)
           else if existsb (same_user_item (vote_user doc) (vote_item doc)) (votes s)
                then (Err DuplicateKey, s)
           else (Ok tt, set_votes s (votes s ++ [doc])))
  | Vote_save loaded doc =>
      if negb (vote_value loaded =? vote_value doc)
         && negb (VoteSchema_value_enum (vote_value doc))
      then (Err ValidationError, s)
      else
        online s
          (if has_vote (vote_id doc) (votes s)
           then (Ok tt,
                 if vote_value loaded =? vote_value doc then s
                 else set_votes s (map (vote_write doc) (votes s)))
           else (Err DocumentNotFound, s))
  | Vote_remove doc =>
      online s
        (Ok tt, set_votes s (filter (fun v => negb (vote_id v =? vote_id doc)%nat) (votes s)))
  | Vote_deleteMany i k =>
      online s (Ok tt, set_votes s (filter (fun v => negb (vote_on i k v)) (votes s)))
  end.

(** ** Handlers as trees of operations *)

Inductive prog (A : Type) : Type :=
| Ret (a : A)
| Op {X : Type} (o : eff X) (k : result X -> prog A).
Arguments Ret {A} a.
Arguments Op {A X} o k.

(** [await o] inside a [try] block whose [catch] is [h]. *)
Definition await {X A} (h : error -> prog A) (o : eff X) (k : X -> prog A) : prog A :=
  Op o (fun r => match r with Ok x => k x | Err e => h e end).

Notation "x <-[ h ] o ;; k" := (await h o (fun x => k))
  (at level 61, o at next level, right associativity, only parsing).
Notation "' pat <-[ h ] o ;; k" := (await h o (fun x => let 'pat := x in k))
  (at level 61, pat pattern, o at next level, right associativity, only parsing).

(** One handler run to completion with no other request in between. *)
Fixpoint run {A} (p : prog A) (s : State) : A * State :=
  match p with
  | Ret a => (a, s)
  | Op o k => let (r, s') := sem o s in run (k r) s'
  end.

(** ** Requests and responses *)

(** A value of the JSON request body: a number that is an integer, or any
    other value (a string, a fraction, a boolean, null, undefined, ...). *)
Inductive jsvalue :=
| JNum (z : Z)
| JOther.

(** [Array.prototype.includes] on an array of integers: no coercion, so only
    a number can be found. *)
Definition includes (l : list Z) (v : jsvalue) : bool :=
  match v with
  | JNum z => existsb (Z.eqb z) l
  | JOther => false
  end.

(** The number a value is, read only after [includes] has accepted it. *)
Definition number_of (v : jsvalue) : Z :=
  match v with
  | JNum z => z
  | JOther => 0
  end.

Inductive body :=
| Message (message : string)                       (* { message } *)
| Errors (errors : list string)                    (* { errors, message } *)
| Votes (n : Z)                                    (* { votes } *)
| PostJson (p : Post)
| CommentJson (c : Comment)
| CommentObj (c : Comment) (isAuthor : bool) (userVote : Z).

Record response := json { status : nat; payload : body }.

(** The [catch] blocks: [console.error], then 404 for a malformed id and 500
    for everything else. *)
Definition catch_500 {A} (ret : response -> A) (e : error) : A :=
  ret (json 500 (Message "Server error")).

Definition catch_404 (not_found : string) (e : error) : prog response :=
  if kind_is_ObjectId e
  then Ret (json 404 (Message not_found))
  else Ret (json 500 (Message "Server error")).

Definition is_empty {A} (l : list A) : bool :=
  match l with [] => true | _ => false end.

(** ** src/routes/posts.js *)

(** POST api/posts: create a post, then the author's own upvote. *)
Definition post_create (user : ObjectId) (errors : list string)
    (title content community : string) : prog response :=
  if negb (is_empty errors) then Ret (json 400 (Errors errors)) else
  let catch := catch_500 Ret in
  communityDoc <-[catch] Community_findOne community ;;
  match communityDoc with
  | None => Ret (json 404 (Message "Community not found"))
  | Some _ =>
      '(id, now) <-[catch] New ;;
      let newPost := mkPost id title content user community 0 false now in
      post <-[catch] Post_insert newPost ;;
      '(vid, vnow) <-[catch] New ;;
      let newVote := mkVote vid user (post_id post) post_t 1 vnow in
      _ <-[catch] Vote_insert newVote ;;
      post' <-[catch] Post_save post (post_with_votes post 1) ;;
      Ret (json 200 (PostJson post'))
  end.

(** PUT api/posts/:id *)
Definition post_update (user : ObjectId) (errors : list string)
    (id : option ObjectId) (title content : string) : prog response :=
  if negb (is_empty errors) then Ret (json 400 (Errors errors)) else
  let catch := catch_404 "Post not found" in
  found <-[catch] Post_findById id ;;
  match found with
  | None => Ret (json 404 (Message "Post not found"))
  | Some post =>
      if negb (post_author post =? user)%nat
      then Ret (json 401 (Message "User not authorized"))
      else
        post' <-[catch] Post_save post (post_with_edit post title content) ;;
        Ret (json 200 (PostJson post'))
  end.

(** DELETE api/posts/:id *)
Definition post_delete (user : ObjectId) (id : option ObjectId) : prog response :=
  let catch := catch_404 "Post not found" in
  found <-[catch] Post_findById id ;;
  match found with
  | None => Ret (json 404 (Message "Post not found"))
  | Some post =>
      if negb (post_author post =? user)%nat
      then Ret (json 401 (Message "User not authorized"))
      else
        _ <-[catch] Comment_deleteMany_post (post_id post) ;;
        _ <-[catch] Vote_deleteMany (post_id post) post_t ;;
        _ <-[catch] Post_remove post ;;
        Ret (json 200 (Message "Post deleted"))
  end.

(** POST api/posts/:id/vote, its last step: [post.votes += voteChange], save
    and answer. *)
Definition post_vote_finish (post : Post) (voteChange : Z) : prog response :=
  let catch := catch_404 "Post not found" in
  post' <-[catch] Post_save post (post_with_votes post (post_votes post + voteChange)) ;;
  Ret (json 200 (Votes (post_votes post'))).

(** POST api/posts/:id/vote, from the point where the post and the user's
    vote have been read. *)
Definition post_vote_apply (user : ObjectId) (voteType : Z)
    (post : Post) (vote : option Vote) : prog response :=
  let catch := catch_404 "Post not found" in
  let finish := post_vote_finish post in
  match vote with
  | Some vote =>
      let voteChange := voteType - vote_value vote in
      if voteType =? 0 then
        _ <-[catch] Vote_remove vote ;;
        finish voteChange
      else
        _ <-[catch] Vote_save vote (vote_with_value vote voteType) ;;
        finish voteChange
  | None =>
      if negb (voteType =? 0) then
        '(vid, now) <-[catch] New ;;
        let vote := mkVote vid user (post_id post) post_t voteType now in
        _ <-[catch] Vote_insert vote ;;
        finish voteType
      else finish 0
  end.

(** POST api/posts/:id/vote *)
Definition post_vote (user : ObjectId) (id : option ObjectId) (voteType : jsvalue)
    : prog response :=
  let catch := catch_404 "Post not found" in
  if negb (includes [1; 0; -1] voteType)
  then Ret (json 400 (Message "Invalid vote type")) else
  found <-[catch] Post_findById id ;;
  match found with
  | None => Ret (json 404 (Message "Post not found"))
  | Some post =>
      vote <-[catch] Vote_findOne user (post_id post) post_t ;;
      post_vote_apply user (number_of voteType) post vote
  end.

(** POST api/posts/:id/comments: create a comment, then the author's own
    upvote. *)
Definition comment_create (user : ObjectId) (errors : list string)
    (id : option ObjectId) (content : string) : prog response :=
  if negb (is_empty errors) then Ret (json 400 (Errors errors)) else
  let catch := catch_404 "Post not found" in
  found <-[catch] Post_findById id ;;
  match found with
  | None => Ret (json 404 (Message "Post not found"))
  | Some post =>
      '(cid, now) <-[catch] New ;;
      let newComment := mkComment cid content user (post_id post) 1 false now in
      comment <-[catch] Comment_insert newComment ;;
      '(vid, vnow) <-[catch] New ;;
      let newVote := mkVote vid user (comment_id comment) comment_t 1 vnow in
      _ <-[catch] Vote_insert newVote ;;
      _ <-[catch] Comment_populate_author comment ;;
      Ret (json 200 (CommentObj comment true 1))
  end.

(** ** The comments router (src/unnamed/part_000) *)

(** PUT api/comments/:id *)
Definition comment_update (user : ObjectId) (errors : list string)
    (id : option ObjectId) (content : string) : prog response :=
  if negb (is_empty errors) then Ret (json 400 (Errors errors)) else
  let catch := catch_404 "Comment not found" in
  found <-[catch] Comment_findById id ;;
  match found with
  | None => Ret (json 404 (Message "Comment not found"))
  | Some comment =>
      if negb (comment_author comment =? user)%nat
      then Ret (json 401 (Message "User not authorized"))
      else
        comment' <-[catch] Comment_save comment (comment_with_edit comment content) ;;
        Ret (json 200 (CommentJson comment'))
  end.

(** DELETE api/comments/:id *)
Definition comment_delete (user : ObjectId) (id : option ObjectId) : prog response :=
  let catch := catch_404 "Comment not found" in
  found <-[catch] Comment_findById id ;;
  match found with
  | None => Ret (json 404 (Message "Comment not found"))
  | Some comment =>
      if negb (comment_author comment =? user)%nat
      then Ret (json 401 (Message "User not authorized"))
      else
        _ <-[catch] Vote_deleteMany (comment_id comment) comment_t ;;
        _ <-[catch] Comment_remove comment ;;
        Ret (json 200 (Message "Comment deleted"))
  end.

(** POST api/comments/:id/vote, its last step: [comment.votes += voteChange],
    save and answer. *)
Definition comment_vote_finish (comment : Comment) (voteChange : Z) : prog response :=
  let catch := catch_404 "Comment not found" in
  comment' <-[catch] Comment_save comment
      (comment_with_votes comment (comment_votes comment + voteChange)) ;;
  Ret (json 200 (Votes (comment_votes comment'))).

(** POST api/comments/:id/vote, from the point where the comment and the
    user's vote have been read. *)
Definition comment_vote_apply (user : ObjectId) (voteType : Z)
    (comment : Comment) (vote : option Vote) : prog response :=
  let catch := catch_404 "Comment not found" in
  let finish := comment_vote_finish comment in
  match vote with
  | Some vote =>
      let voteChange := voteType - vote_value vote in
      if voteType =? 0 then
        _ <-[catch] Vote_remove vote ;;
        finish voteChange
      else
        _ <-[catch] Vote_save vote (vote_with_value vote voteType) ;;
        finish voteChange
  | None =>
      if negb (voteType =? 0) then
        '(vid, now) <-[catch] New ;;
        let vote := mkVote vid user (comment_id comment) comment_t voteType now in
        _ <-[catch] Vote_insert vote ;;
        finish voteType
      else finish 0
  end.

(** POST api/comments/:id/vote *)
Definition comment_vote (user : ObjectId) (id : option ObjectId) (voteType : jsvalue)
    : prog response :=
  let catch := catch_404 "Comment not found" in
  if negb (includes [1; 0; -1] voteType)
  then Ret (json 400 (Message "Invalid vote type")) else
  found <-[catch] Comment_findById id ;;
  match found with
  | None => Ret (json 404 (Message "Comment not found"))
  | Some comment =>
      vote <-[catch] Vote_findOne user (comment_id comment) comment_t ;;
      comment_vote_apply user (number_of voteType) comment vote
  end.

(** ** src/routes/users.js *)

(** [calculateKarma]: the two [reduce] calls are left folds from 0; any
    rejected read lands in the [catch], which returns 0. *)
Definition calculateKarma (userId : ObjectId) : prog Z :=
  let catch := fun _ : error => Ret 0 in
  posts <-[catch] Post_find_author userId ;;
  let postKarma := fold_left (fun total post => total + post_votes post) posts 0 in
  comments <-[catch] Comment_find_author userId ;;
  let commentKarma :=
    fold_left (fun total comment => total + comment_votes comment) comments 0 in
  Ret (postKarma + commentKarma).

(** ** The server *)

(** An authenticated request, as the handlers see it: the user the [auth]
    middleware put in [req.user.id], the list [validationResult(req)]
    produced, the [:id] parameter ([None] when the string is not an ObjectId)
    and the fields of the body. *)
Inductive request :=
| POST_posts (user : ObjectId) (errors : list string) (title content community : string)
| PUT_posts_id (user : ObjectId) (errors : list string) (id : option ObjectId)
    (title content : string)
| DELETE_posts_id (user : ObjectId) (id : option ObjectId)
| POST_posts_id_vote (user : ObjectId) (id : option ObjectId) (voteType : jsvalue)
| POST_posts_id_comments (user : ObjectId) (errors : list string) (id : option ObjectId)
    (content : string)
| PUT_comments_id (user : ObjectId) (errors : list string) (id : option ObjectId)
    (content : string)
| DELETE_comments_id (user : ObjectId) (id : option ObjectId)
| POST_comments_id_vote (user : ObjectId) (id : option ObjectId) (voteType : jsvalue).

(** The routers mounted by src/server.js. *)
Definition handler (r : request) : prog response :=
  match r with
  | POST_posts u e t c m => post_create u e t c m
  | PUT_posts_id u e i t c => post_update u e i t c
  | DELETE_posts_id u i => post_delete u i
  | POST_posts_id_vote u i v => post_vote u i v
  | POST_posts_id_comments u e i c => comment_create u e i c
  | PUT_comments_id u e i c => comment_update u e i c
  | DELETE_comments_id u i => comment_delete u i
  | POST_comments_id_vote u i v => comment_vote u i v
  end.

(** The spec's [applyVote(userId, itemId, itemKind, requestedType)]: the vote
    route of the item's kind. *)
Definition applyVote (userId : ObjectId) (itemId : option ObjectId) (itemKind : ItemType)
    (requestedType : jsvalue) : prog response :=
  match itemKind with
  | post_t => post_vote userId itemId requestedType
  | comment_t => comment_vote userId itemId requestedType
  end.

(** What happens around the handlers: the connection drops or comes back,
    time passes. *)
Inductive env_event := Disconnect | Reconnect | Tick.

Definition env (e : env_event) (s : State) : State :=
  match e with
  | Disconnect => set_connected s false
  | Reconnect => set_connected s true
  | Tick => set_clock s (S (clock s))
  end.

(** *** Requests served one at a time *)

Inductive event :=
| Call (r : request)
| Env (e : env_event).

Definition serve (ev : event) (s : State) : State :=
  match ev with
  | Call r => snd (run (handler r) s)
  | Env e => env e s
  end.

Definition serve_all (h : list event) (s : State) : State :=
  fold_left (fun s ev => serve ev s) h s.

(** *** Requests in flight together *)

(** One operation of a handler: the operation takes effect and the handler
    proceeds to its next [await]. *)
Definition step {A} (p : prog A) (s : State) : prog A * State :=
  match p with
  | Ret a => (Ret a, s)
  | Op o k => let (r, s') := sem o s in (k r, s')
  end.

Inductive action :=
| Arrive (r : request)          (* a request arrives and its handler starts *)
| Resume (i : nat)              (* the i-th handler performs its next operation *)
| Outside (e : env_event).

Record server := mkServer { store : State; pool : list (prog response) }.

Fixpoint step_nth (i : nat) (l : list (prog response)) (s : State)
    : list (prog response) * State :=
  match l, i with
  | [], _ => ([], s)
  | p :: l', O => let (p', s') := step p s in (p' :: l', s')
  | p :: l', S j => let (l'', s') := step_nth j l' s in (p :: l'', s')
  end.

Definition act (a : action) (c : server) : server :=
  match a with
  | Arrive r => mkServer (store c) (pool c ++ [handler r])
  | Resume i => let (l, s) := step_nth i (pool c) (store c) in mkServer s l
  | Outside e => mkServer (env e (store c)) (pool c)
  end.

Definition exec (schedule : list action) (c : server) : server :=
  fold_left (fun c a => act a c) schedule c.

(** The response of the i-th handler, once it has returned. *)
Definition responded (c : server) (i : nat) : option response :=
  match nth_error (pool c) i with
  | Some (Ret r) => Some r
  | _ => None
  end.

(** The server at start-up: an empty database behind a live connection. *)
Definition boot (names : list string) (id0 : ObjectId) (t0 : Time) : State :=
  mkState [] [] [] names id0 t0 true.

(** ** Quantities the claims speak of *)

Definition sumZ (l : list Z) : Z := fold_right Z.add 0 l.

(** Sum of the values of the Vote records that reference item [i] of kind
    [k]. *)
Definition vote_sum (vs : list Vote) (i : ObjectId) (k : ItemType) : Z :=
  sumZ (map vote_value (filter (vote_on i k) vs)).

(** The stored score of a post or comment. *)
Definition score (s : State) (i : ObjectId) (k : ItemType) : option Z :=
  match k with
  | post_t => option_map post_votes (find (fun p => (post_id p =? i)%nat) (posts s))
  | comment_t => option_map comment_votes (find (fun c => (comment_id c =? i)%nat) (comments s))
  end.

(** The Vote-store properties of the data model: stored values are -1 or
    +1, and a (user, item) pair has at most one record. *)
Definition values_ok (vs : list Vote) : Prop :=
  Forall (fun v => vote_value v = -1 \/ vote_value v = 1) vs.

Definition one_per_pair (vs : list Vote) : Prop :=
  forall u i, (length (filter (same_user_item u i) vs) <= 1)%nat.

Definition votes_ok (s : State) : Prop :=
  values_ok (votes s) /\ one_per_pair (votes s).

(** The spec's karma of a user: the scores of the posts the user authored
    plus the scores of the comments the user authored, as stored. *)
Definition karma (s : State) (userId : ObjectId) : Z :=
  sumZ (map post_votes (filter (fun p => (post_author p =? userId)%nat) (posts s)))
  + sumZ (map comment_votes (filter (fun c => (comment_author c =? userId)%nat) (comments s))).

(** The two errors of the vote routes, as the spec names them. *)
Definition InvalidVoteType : response := json 400 (Message "Invalid vote type").

Definition ItemNotFound (k : ItemType) : response :=
  match k with
  | post_t => json 404 (Message "Post not found")
  | comment_t => json 404 (Message "Comment not found")
  end.

(** The requested type is one of -1, 0, +1. *)
Definition valid_type (v : jsvalue) : Prop :=
  v = JNum (-1) \/ v = JNum 0 \/ v = JNum 1.

(** The id resolves to a stored item of the kind. *)
Definition resolves (s : State) (itemId : option ObjectId) (k : ItemType) : bool :=
  match itemId, k with
  | None, _ => false
  | Some i, post_t =>
      match find (fun p => (post_id p =? i)%nat) (posts s) with
      | Some _ => true
      | None => false
      end
  | Some i, comment_t =>
      match find (fun c => (comment_id c =? i)%nat) (comments s) with
      | Some _ => true
      | None => false
      end
  end.

(** Frame of a vote on item [i] of kind [k]: a stored post keeps every field
    but its score, and keeps its score too unless it is the item voted on;
    likewise for a stored comment. *)
Definition post_kept (i : ObjectId) (k : ItemType) (p p' : Post) : Prop :=
  p' = post_with_votes p (post_votes p') /\
  (p' = p \/ (k = post_t /\ post_id p = i)).

Definition comment_kept (i : ObjectId) (k : ItemType) (c c' : Comment) : Prop :=
  c' = comment_with_votes c (comment_votes c') /\
  (c' = c \/ (k = comment_t /\ comment_id c = i)).

(** What a vote of user [u] on item [i] of kind [k] may change between two
    states: the score of that item, and the user's own Vote record on it. *)
Definition frame (u i : ObjectId) (k : ItemType) (s s' : State) : Prop :=
  Forall2 (post_kept i k) (posts s) (posts s') /\
  Forall2 (comment_kept i k) (comments s) (comments s') /\
  filter (fun v => negb (vote_matches u i k v)) (votes s')
  = filter (fun v => negb (vote_matches u i k v)) (votes s).

(** The transition table of the spec (section 4.1), following its words:
    what to do with the Vote record and by how much the score moves, given
    the value of the existing vote (if any) and the requested type. *)
Inductive transition_action :=
| no_op
| insert_vote (value : Z)
| delete_vote
| update_vote (value : Z).

Definition transition (existing : option Z) (requested : Z) : transition_action * Z :=
  match existing with
  | None => if requested =? 0 then (no_op, 0) else (insert_vote requested, requested)
  | Some v =>
      if requested =? 0 then (delete_vote, - v)
      else if requested =? v then (no_op, 0)
      else (update_vote (- v), -2 * v)
  end.

(** The Vote store after an action of the table is carried out for user [u]
    on item [i] of kind [k], the user's existing record being [existing]. *)
Definition perform (a : transition_action) (u i : ObjectId) (k : ItemType)
    (existing : option Vote) (s : State) : list Vote :=
  match a, existing with
  | no_op, _ => votes s
  | insert_vote x, _ => votes s ++ [mkVote (nextId s) u i k x (clock s)]
  | delete_vote, Some v => filter (fun w => negb (vote_id w =? vote_id v)%nat) (votes s)
  | update_vote x, Some v =>
      map (fun w => if (vote_id w =? vote_id v)%nat then vote_with_value w x else w) (votes s)
  | _, None => votes s
  end.

(** Every stored score is the sum of the item's votes. *)
Definition scores_ok (s : State) : Prop :=
  Forall (fun p => post_votes p = vote_sum (votes s) (post_id p) post_t) (posts s) /\
  Forall (fun c => comment_votes c = vote_sum (votes s) (comment_id c) comment_t) (comments s).

(** Ids in the database were issued by the generator, which never issues an
    id twice: stored documents and the items that votes refer to carry ids
    below the counter, a post and a comment never share an id, and a vote
    that refers to the id of a stored item is a vote of that item's kind. *)
Record ids_ok (s : State) : Prop := {
  posts_issued : Forall (fun p => (post_id p < nextId s)%nat) (posts s);
  comments_issued : Forall (fun c => (comment_id c < nextId s)%nat) (comments s);
  votes_issued :
    Forall (fun v => (vote_id v < nextId s)%nat /\ (vote_item v < nextId s)%nat) (votes s);
  vote_ids_unique : NoDup (map vote_id (votes s));
  votes_on_posts :
    Forall (fun v => has_post (vote_item v) (posts s) = true -> vote_itemType v = post_t)
           (votes s);
  votes_on_comments :
    Forall (fun v => has_comment (vote_item v) (comments s) = true ->
                     vote_itemType v = comment_t) (votes s);
  ids_disjoint : Forall (fun p => has_comment (post_id p) (comments s) = false) (posts s)
}.

(** The invariant of the database when requests are served one at a time. *)
Definition consistent (s : State) : Prop :=
  scores_ok s /\ ids_ok s /\ values_ok (votes s).


(** The operation a handler is about to perform is the insert of a Vote. *)
Definition at_vote_insert {A} (p : prog A) : bool :=
  match p with
  | Op (Vote_insert _) _ => true
  | _ => false
  end.

(** The error the next operation of a handler is rejected with, if it is. *)
Definition next_error {A} (p : prog A) (s : State) : option error :=
  match p with
  | Ret _ => None
  | Op o _ => match fst (sem o s) with Err e => Some e | Ok _ => None end
  end.

(** The weight of one Vote record in the sum of item [j] of kind [k]. *)
Definition weight (j : ObjectId) (k : ItemType) (v : Vote) : Z :=
  if vote_on j k v then vote_value v else 0.

(** A collection in which the score of item [i] has become [x]. *)
Definition posts_rescored (i : ObjectId) (x : Z) (ps : list Post) : list Post :=
  map (fun q => if (post_id q =? i)%nat then post_with_votes q x else q) ps.

Definition comments_rescored (i : ObjectId) (x : Z) (cs : list Comment) : list Comment :=
  map (fun q => if (comment_id q =? i)%nat then comment_with_votes q x else q) cs.

(** The state after a vote: the Vote store after the action of the table,
    the given collections of items, and one id used up by an insert. *)
Definition after_vote (s : State) (ps : list Post) (cs : list Comment)
    (a : transition_action) (u i : ObjectId) (k : ItemType) (existing : option Vote) : State :=
  mkState ps cs (perform a u i k existing s) (communities s)
          (match a with insert_vote _ => S (nextId s) | _ => nextId s end)
          (clock s) (connected s).

(** By how much an action of the table moves the sum of the item's votes. *)
Definition vote_delta (a : transition_action) (existing : option Vote) : Z :=
  match a, existing with
  | no_op, _ => 0
  | insert_vote x, _ => x
  | delete_vote, Some v => - vote_value v
  | update_vote x, Some v => x - vote_value v
  | _, None => 0
  end.

(** An action of the table that can be carried out: it stores -1 or +1, and
    deletes or updates a record only when there is one. *)
Definition action_ok (a : transition_action) (existing : option Vote) : Prop :=
  match a with
  | no_op => True
  | insert_vote x => existing = None /\ (x = -1 \/ x = 1)
  | delete_vote => existing <> None
  | update_vote x => existing <> None /\ (x = -1 \/ x = 1)
  end.

(** Item [i] of kind [k] is in the database. *)
Definition item_stored (s : State) (i : ObjectId) (k : ItemType) : Prop :=
  match k with
  | post_t => has_post i (posts s) = true
  | comment_t => has_comment i (comments s) = true
  end.

(** The documents a creation stores: the item with score 1 and the author's
    own upvote, whose id is the next one after the item's. *)
Definition created_post (s : State) (user : ObjectId) (title content community : string) : Post :=
  mkPost (nextId s) title content user community 1 false (clock s).

Definition created_comment (s : State) (user : ObjectId) (parent : ObjectId) (content : string)
    : Comment :=
  mkComment (nextId s) content user parent 1 false (clock s).

Definition self_vote (s : State) (user : ObjectId) (k : ItemType) : Vote :=
  mkVote (S (nextId s)) user (nextId s) k 1 (clock s).

(** What consistency looks at in an item: its id and its score. *)
Definition post_key (q : Post) : ObjectId * Z := (post_id q, post_votes q).
Definition comment_key (q : Comment) : ObjectId * Z := (comment_id q, comment_votes q).

(** ** Example databases and schedules *)

(** User 7 has created post 0 in community m: score 1, own upvote 1. *)
Definition example_post : State :=
  serve_all [Call (POST_posts 7 [] "t" "x" "m")] (boot ["m"] 0 0).

(** ... and has then retracted the upvote: score 0, no votes. *)
Definition example_neutral : State :=
  serve_all [Call (POST_posts_id_vote 7 (Some 0%nat) (JNum 0))] example_post.

(** User 8 has commented on post 0: comment 2, own upvote 3. *)
Definition example_thread : State :=
  serve_all [Call (POST_posts_id_comments 8 [] (Some 0%nat) "hi")] example_post.


(** User 8 sends the same upvote of post 0 twice at the same time. *)
Definition same_voter_twice : list action :=
  [Arrive (POST_posts_id_vote 8 (Some 0%nat) (JNum 1));
   Arrive (POST_posts_id_vote 8 (Some 0%nat) (JNum 1));
   Resume 0; Resume 0;            (* first request: post loaded, no vote found *)
   Resume 1; Resume 1;            (* second request: post loaded, no vote found *)
   Resume 0; Resume 0; Resume 0;  (* first request: new Vote, insert, save *)
   Resume 1].                     (* second request: new Vote *)

(** The i-th handler of the pool. *)
Definition pending (c : server) (i : nat) : prog response :=
  nth i (pool c) (Ret (json 0 (Message ""))).

(** ** The profile route of src/routes/users.js *)

(** The answer of GET api/users/:username: a message with its status, or the
    user document with its karma attached, answered with status 200. *)
Inductive profile (U : Type) :=
| ProfileMessage (status : nat) (message : string)
| ProfileJson (user : U) (karma : Z).
Arguments ProfileMessage {U} status message.
Arguments ProfileJson {U} user karma.

(** [await p] where [p] is itself a tree of operations. *)
Fixpoint bind {A B} (p : prog A) (k : A -> prog B) : prog B :=
  match p with
  | Ret a => k a
  | Op o f => Op o (fun r => bind (f r) k)
  end.

(** GET api/users/:username.  The user document is kept abstract: any type
    [U] with its [_id]; what [User.findOne] resolved or rejected with is an
    input.  [calculateKarma] has a [catch] of its own, so it never rejects
    into the [catch] of the route. *)
Definition user_get {U} (user_id : U -> ObjectId) (lookup : result (option U))
    : prog (profile U) :=
  match lookup with
  | Err _ => Ret (ProfileMessage 500 "Server error")
  | Ok None => Ret (ProfileMessage 404 "User not found")
  | Ok (Some user) =>
      bind (calculateKarma (user_id user)) (fun karma => Ret (ProfileJson user karma))
  end.

(** ** Notions for edits, deletions and karma *)

(** The answer to a user who is not the author of the item. *)
Definition Unauthorized : response := json 401 (Message "User not authorized").

(** Two collections hold the same documents in the same places, but for the
    documents of id [i], which keep their id. *)
Definition same_but_post (i : ObjectId) (ps ps' : list Post) : Prop :=
  Forall2 (fun q q' => post_id q' = post_id q /\ (post_id q <> i -> q' = q)) ps ps'.

Definition same_but_comment (i : ObjectId) (cs cs' : list Comment) : Prop :=
  Forall2 (fun q q' => comment_id q' = comment_id q /\ (comment_id q <> i -> q' = q)) cs cs'.

(** The collections after a vote on item [i] of kind [k] has saved the score
    [y]: only the collection of that kind is written. *)
Definition rescored_posts (k : ItemType) (i : ObjectId) (y : Z) (ps : list Post) : list Post :=
  match k with post_t => posts_rescored i y ps | comment_t => ps end.

Definition rescored_comments (k : ItemType) (i : ObjectId) (y : Z) (cs : list Comment)
    : list Comment :=
  match k with post_t => cs | comment_t => comments_rescored i y cs end.

(** The vote of user [u] on item [i] of kind [k], as [Vote.findOne] sees it:
    [None] when the user has no Vote record on the item. *)
Definition user_vote (s : State) (u i : ObjectId) (k : ItemType) : option Z :=
  option_map vote_value (find (vote_matches u i k) (votes s)).

(** The author of a stored item. *)
Definition item_author (s : State) (i : ObjectId) (k : ItemType) : option ObjectId :=
  match k with
  | post_t => option_map post_author (find (fun p => (post_id p =? i)%nat) (posts s))
  | comment_t => option_map comment_author (find (fun c => (comment_id c =? i)%nat) (comments s))
  end.

(** The unique index on [_id] of the two item collections. *)
Definition items_unique (s : State) : Prop :=
  NoDup (map post_id (posts s)) /\ NoDup (map comment_id (comments s)).

(** The two summands of a user's karma. *)
Definition post_karma (a : ObjectId) (ps : list Post) : Z :=
  sumZ (map post_votes (filter (fun p => (post_author p =? a)%nat) ps)).

Definition comment_karma (a : ObjectId) (cs : list Comment) : Z :=
  sumZ (map comment_votes (filter (fun c => (comment_author c =? a)%nat) cs)).

(** Every stored comment is a comment on a stored post. *)
Definition parents_stored (s : State) : Prop :=
  Forall (fun c => has_post (comment_post c) (posts s) = true) (comments s).

(** The fields of an item that no route assigns after the creation. *)
Definition post_identity (q : Post) : ObjectId * ObjectId * string * Time :=
  (post_id q, post_author q, post_community q, post_createdAt q).

Definition comment_identity (c : Comment) : ObjectId * ObjectId * ObjectId * Time :=
  (comment_id c, comment_author c, comment_post c, comment_createdAt c).

(** Every item of [s'] has the identity of an item of [s], or is the item a
    creation has just stored under the next id of the generator. *)
Definition identities_kept (s s' : State) : Prop :=
  Forall (fun q' => In (post_identity q') (map post_identity (posts s))
                    \/ post_id q' = nextId s) (posts s') /\
  Forall (fun c' => In (comment_identity c') (map comment_identity (comments s))
                    \/ comment_id c' = nextId s) (comments s').

(** User 8 upvotes post 0 and the connection drops after the Vote record is
    inserted, before the score is saved; the connection comes back and user
    9 upvotes post 0.  No two handlers are in flight together. *)
Definition vote_cut_short : list action :=
  [Arrive (POST_posts_id_vote 8 (Some 0%nat) (JNum 1));
   Resume 0; Resume 0;            (* post loaded, no vote found *)
   Resume 0; Resume 0;            (* new Vote, insert *)
   Outside Disconnect;
   Resume 0;                      (* the save of the score rejects *)
   Outside Reconnect;
   Arrive (POST_posts_id_vote 9 (Some 0%nat) (JNum 1));
   Resume 1; Resume 1; Resume 1; Resume 1; Resume 1].

(** * Proofs *)

(** ** Lists of documents *)

Section ListFacts.
Context {A : Type}.

Lemma filter_filter_length (P Q : A -> bool) (l : list A) :
  (length (filter P (filter Q l)) <= length (filter P l))%nat.
Proof.
  induction l as [|a l IH]; simpl; [lia|].
  destruct (Q a), (P a) eqn:E; simpl; rewrite ?E; simpl; lia.
Qed.

Lemma filter_none (P : A -> bool) (l : list A) :
  existsb P l = false -> filter P l = [].
Proof.
  induction l as [|a l IH]; simpl; [reflexivity|].
  destruct (P a); simpl; [discriminate|exact IH].
Qed.

Lemma filter_map_same (P : A -> bool) (f : A -> A) (l : list A) :
  (forall a, P (f a) = P a) ->
  length (filter P (map f l)) = length (filter P l).
Proof.
  intros Hf. induction l as [|a l IH]; simpl; [reflexivity|].
  rewrite Hf. destruct (P a); simpl; congruence.
Qed.

Lemma find_none_existsb (P : A -> bool) (l : list A) :
  find P l = None <-> existsb P l = false.
Proof.
  induction l as [|a l IH]; simpl; [tauto|].
  destruct (P a); simpl; [split; discriminate|exact IH].
Qed.

Lemma find_some_existsb (P : A -> bool) (l : list A) (a : A) :
  find P l = Some a -> existsb P l = true.
Proof.
  intros H. destruct (existsb P l) eqn:E; [reflexivity|].
  apply find_none_existsb in E. congruence.
Qed.
End ListFacts.

Lemma fold_left_add {A} (f : A -> Z) (l : list A) (acc : Z) :
  fold_left (fun total a => total + f a) l acc = acc + sumZ (map f l).
Proof.
  revert acc. induction l as [|a l IH]; intros acc; simpl; [lia|].
  rewrite IH. unfold sumZ. lia.
Qed.

(** ** Running programs *)

Lemma online_on {X} (s : State) (r : result X * State) :
  connected s = true -> online s r = r.
Proof. unfold online. intros ->. reflexivity. Qed.

Lemma online_off {X} (s : State) (r : result X * State) :
  connected s = false -> online s r = (Err StoreUnavailable, s).
Proof. unfold online. intros ->. reflexivity. Qed.

(** Symbolic execution on a live connection. *)
Ltac online Hc := repeat (simpl; rewrite ?online_on by exact Hc).

Ltac offline Hc := repeat (simpl; rewrite ?online_off by exact Hc).

(** Case analysis on the innermost scrutinee of the goal. *)
Ltac split_match :=
  match goal with
  | |- context [match ?x with _ => _ end] =>
      lazymatch x with
      | context [match _ with _ => _ end] => fail
      | _ => destruct x eqn:?
      end
  end.

(** Properties of a concrete database, by evaluation. *)
Ltac concrete :=
  vm_compute;
  repeat first [ reflexivity | discriminate | lia | split
               | apply Forall_nil | apply Forall_cons | apply NoDup_nil | apply NoDup_cons
               | (intros H; simpl in H; tauto) | (intros; congruence)
               | progress simpl ].

(** The connection is no business of the operations. *)
Lemma sem_connected {X} (o : eff X) (s : State) :
  connected (snd (sem o s)) = connected s.
Proof.
  destruct o; simpl; unfold online;
    repeat match goal with
           | |- context [match ?x with _ => _ end] => destruct x eqn:?; simpl
           end; congruence.
Qed.

(** A property of the state that every single operation preserves is
    preserved by running any program, stepping it, and by every schedule. *)
Section OperationInvariant.
Variable P : State -> Prop.
Hypothesis P_sem : forall X (o : eff X) s, P s -> P (snd (sem o s)).
Hypothesis P_env : forall e s, P s -> P (env e s).

Lemma run_preserves {A} (p : prog A) (s : State) : P s -> P (snd (run p s)).
Proof.
  revert s. induction p as [a | X o k IH]; intros s Hs; simpl; [exact Hs|].
  specialize (P_sem X o s Hs). destruct (sem o s) as [r s']. apply IH, P_sem.
Qed.

Lemma step_preserves {A} (p : prog A) (s : State) : P s -> P (snd (step p s)).
Proof.
  destruct p as [a | X o k]; intros Hs; simpl; [exact Hs|].
  specialize (P_sem X o s Hs). destruct (sem o s) as [r s']. exact P_sem.
Qed.

Lemma step_nth_preserves (i : nat) (l : list (prog response)) (s : State) :
  P s -> P (snd (step_nth i l s)).
Proof.
  revert i. induction l as [|p l IH]; intros i Hs.
  - destruct i; exact Hs.
  - destruct i as [|j]; simpl.
    + pose proof (step_preserves p s Hs) as H. destruct (step p s). exact H.
    + specialize (IH j Hs). destruct (step_nth j l s). exact IH.
Qed.

Lemma act_preserves (a : action) (c : server) : P (store c) -> P (store (act a c)).
Proof.
  destruct a as [r | i | e]; simpl; intros Hs.
  - exact Hs.
  - pose proof (step_nth_preserves i (pool c) (store c) Hs) as H.
    destruct (step_nth i (pool c) (store c)). exact H.
  - apply P_env, Hs.
Qed.

Lemma exec_preserves (schedule : list action) (c : server) :
  P (store c) -> P (store (exec schedule c)).
Proof.
  revert c. induction schedule as [|a l IH]; intros c Hs; simpl; [exact Hs|].
  apply IH, act_preserves, Hs.
Qed.
End OperationInvariant.

(** ** A handler resumed until it returns is the handler run to completion *)

Lemma step_nth_last (l : list (prog response)) (p : prog response) (s : State) :
  step_nth (List.length l) (l ++ [p]) s = ((l ++ [fst (step p s)])%list, snd (step p s)).
Proof.
  induction l as [|q l IH]; simpl.
  - destruct (step p s); reflexivity.
  - rewrite IH. reflexivity.
Qed.

Lemma act_resume_last (l : list (prog response)) (p : prog response) (s : State) :
  act (Resume (List.length l)) (mkServer s (l ++ [p]))
  = mkServer (snd (step p s)) (l ++ [fst (step p s)]).
Proof. unfold act. cbn [pool store]. rewrite step_nth_last. reflexivity. Qed.

Lemma exec_cons (a : action) (l : list action) (c : server) :
  exec (a :: l) c = exec l (act a c).
Proof. reflexivity. Qed.

Lemma resume_until_done (l : list (prog response)) (p : prog response) :
  forall s, exists n, forall m, (n <= m)%nat ->
  exec (repeat (Resume (List.length l)) m) (mkServer s (l ++ [p]))
  = mkServer (snd (run p s)) (l ++ [Ret (fst (run p s))]).
Proof.
  induction p as [a | X o k IH]; intros s.
  - exists 0%nat. intros m _. induction m as [|m IHm]; [reflexivity|].
    cbn [repeat]. rewrite exec_cons, act_resume_last. exact IHm.
  - destruct (IH (fst (sem o s)) (snd (sem o s))) as [n Hn]. exists (S n). intros m Hm.
    destruct m as [|m]; [lia|].
    cbn [repeat]. rewrite exec_cons, act_resume_last.
    cbn [step run]. destruct (sem o s) as [r s']. apply Hn. lia.
Qed.

(** A schedule that lets a request arrive and resumes its handler until it
    has returned serves the request as [serve] does. *)
Lemma serial_schedule (r : request) (c : server) :
  exists n, forall m, (n <= m)%nat ->
  exec (Arrive r :: repeat (Resume (List.length (pool c))) m) c
  = mkServer (serve (Call r) (store c)) (pool c ++ [Ret (fst (run (handler r) (store c)))]).
Proof.
  destruct (resume_until_done (pool c) (handler r) (store c)) as [n Hn].
  exists n. intros m Hm. rewrite exec_cons. apply Hn, Hm.
Qed.

(** ** The Vote store under single operations *)

Lemma same_user_item_write (d : Vote) (u i : ObjectId) (v : Vote) :
  same_user_item u i (vote_write d v) = same_user_item u i v.
Proof. unfold vote_write. destruct (vote_id v =? vote_id d)%nat; reflexivity. Qed.

Lemma values_ok_filter (P : Vote -> bool) (vs : list Vote) :
  values_ok vs -> values_ok (filter P vs).
Proof.
  unfold values_ok. rewrite !Forall_forall. intros H v Hv.
  apply filter_In in Hv. apply H, Hv.
Qed.

Lemma one_per_pair_filter (P : Vote -> bool) (vs : list Vote) :
  one_per_pair vs -> one_per_pair (filter P vs).
Proof.
  intros H u i. specialize (H u i).
  pose proof (filter_filter_length (same_user_item u i) P vs). lia.
Qed.

Lemma enum_values (x : Z) : VoteSchema_value_enum x = true -> x = -1 \/ x = 1.
Proof. unfold VoteSchema_value_enum. lia. Qed.

Lemma values_ok_write (d : Vote) (vs : list Vote) :
  VoteSchema_value_enum (vote_value d) = true ->
  values_ok vs -> values_ok (map (vote_write d) vs).
Proof.
  intros Hd H. unfold values_ok in *. rewrite Forall_map.
  eapply Forall_impl; [|exact H]. intros v Hv. unfold vote_write.
  destruct (vote_id v =? vote_id d)%nat; simpl; [apply enum_values, Hd|exact Hv].
Qed.

Lemma one_per_pair_write (d : Vote) (vs : list Vote) :
  one_per_pair vs -> one_per_pair (map (vote_write d) vs).
Proof.
  intros H u i. rewrite filter_map_same; [apply H|].
  intros v. apply same_user_item_write.
Qed.

Lemma same_user_item_true (u i : ObjectId) (v : Vote) :
  same_user_item u i v = true <-> vote_user v = u /\ vote_item v = i.
Proof.
  unfold same_user_item. rewrite andb_true_iff, !Nat.eqb_eq. tauto.
Qed.

Lemma one_per_pair_insert (d : Vote) (vs : list Vote) :
  existsb (same_user_item (vote_user d) (vote_item d)) vs = false ->
  one_per_pair vs -> one_per_pair (vs ++ [d]).
Proof.
  intros Hnew H u i. rewrite filter_app, length_app. simpl.
  destruct (same_user_item u i d) eqn:E; simpl; [|specialize (H u i); lia].
  apply same_user_item_true in E. destruct E as [<- <-].
  rewrite (filter_none _ _ Hnew). simpl. lia.
Qed.

Lemma sem_votes_ok {X} (o : eff X) (s : State) :
  votes_ok s -> votes_ok (snd (sem o s)).
Proof.
  unfold votes_ok. intros [Hv Hp].
  destruct o; simpl; unfold online;
    repeat match goal with
           | |- context [match ?x with _ => _ end] => destruct x eqn:?; simpl
           end; auto using values_ok_filter, one_per_pair_filter, one_per_pair_write.
  - (* Vote_insert *)
    split.
    + apply Forall_app. split; [exact Hv|]. constructor; [|constructor].
      apply enum_values. destruct (VoteSchema_value_enum (vote_value doc)); [reflexivity|discriminate].
    + apply one_per_pair_insert; assumption.
  - (* Vote_save *)
    split; [|apply one_per_pair_write, Hp].
    apply values_ok_write; [|exact Hv].
    destruct (VoteSchema_value_enum (vote_value doc)); [reflexivity|discriminate].
Qed.

Lemma env_votes_ok (e : env_event) (s : State) : votes_ok s -> votes_ok (env e s).
Proof. destruct e; exact (fun H => H). Qed.

Lemma boot_votes_ok names id0 t0 : votes_ok (boot names id0 t0).
Proof. split; [constructor|]. intros u i. simpl. lia. Qed.

(** ** Karma *)

(** C9. When the two reads succeed (the connection is up), [calculateKarma]
    returns the sum of the stored scores of the user's posts plus the sum of
    the stored scores of the user's comments; it is computed from the stored
    scores at the time of the call and writes nothing. *)
Theorem calculateKarma_sums_scores (s : State) (userId : ObjectId) :
  connected s = true ->
  run (calculateKarma userId) s = (karma s userId, s).
Proof.
  intros Hc. unfold calculateKarma, await, karma.
  online Hc. rewrite !fold_left_add. reflexivity.
Qed.

Lemma calculateKarma_sums_scores_witness :
  let s := mkState [mkPost 0 "t" "x" 7 "m" 3 false 0; mkPost 1 "u" "y" 8 "m" 5 false 0]
                   [mkComment 2 "hi" 7 0 (-1) false 0] [] ["m"] 3 0 true in
  connected s = true /\ run (calculateKarma 7) s = (2, s).
Proof.
  split; [reflexivity|].
  apply (calculateKarma_sums_scores
           (mkState [mkPost 0 "t" "x" 7 "m" 3 false 0; mkPost 1 "u" "y" 8 "m" 5 false 0]
                    [mkComment 2 "hi" 7 0 (-1) false 0] [] ["m"] 3 0 true) 7).
  reflexivity.
Defined.

(** ** The Vote store in every reachable state *)

(** C8. Whatever requests arrive and however their operations interleave,
    the Vote store of a server started on an empty database holds only
    values -1 and +1 and at most one record per (user, item) pair; and
    serving any request (or any outside event) preserves both properties. *)
Theorem vote_store_invariants :
  (forall names id0 t0 schedule,
      votes_ok (store (exec schedule (mkServer (boot names id0 t0) [])))) /\
  (forall s ev, votes_ok s -> votes_ok (serve ev s)).
Proof.
  split.
  - intros names id0 t0 schedule.
    apply (exec_preserves votes_ok (@sem_votes_ok) env_votes_ok).
    apply boot_votes_ok.
  - intros s [r | e] Hs; simpl.
    + apply (run_preserves votes_ok (@sem_votes_ok)), Hs.
    + apply env_votes_ok, Hs.
Qed.

Lemma vote_store_invariants_witness :
  votes_ok (boot ["m"] 0 0) /\
  votes_ok (serve (Call (POST_posts 7 [] "t" "x" "m")) (boot ["m"] 0 0)).
Proof.
  assert (H : votes_ok (boot ["m"] 0 0)).
  { split; [constructor|]. intros u i. simpl. lia. }
  split; [exact H|].
  exact (proj2 vote_store_invariants (boot ["m"] 0 0) (Call (POST_posts 7 [] "t" "x" "m")) H).
Defined.

(** ** Errors of the vote routes *)

Lemma valid_type_includes vt : includes [1; 0; -1] vt = true <-> valid_type vt.
Proof.
  unfold valid_type. destruct vt as [z|]; simpl.
  - rewrite !orb_true_iff, !Z.eqb_eq. split.
    + intros [->|[->|[->|H]]]; auto. discriminate.
    + intros [H|[H|H]]; inversion H; auto.
  - split; [discriminate|]. intros [H|[H|H]]; discriminate.
Qed.


Lemma post_vote_apply_status s u vt p v :
  connected s = true ->
  status (fst (run (post_vote_apply u vt p v) s)) = 200%nat \/
  status (fst (run (post_vote_apply u vt p v) s)) = 500%nat.
Proof.
  intros Hc. unfold post_vote_apply, post_vote_finish, await, catch_404.
  repeat (online Hc; try split_match); auto.
Qed.

Lemma comment_vote_apply_status s u vt c v :
  connected s = true ->
  status (fst (run (comment_vote_apply u vt c v) s)) = 200%nat \/
  status (fst (run (comment_vote_apply u vt c v) s)) = 500%nat.
Proof.
  intros Hc. unfold comment_vote_apply, comment_vote_finish, await, catch_404.
  repeat (online Hc; try split_match); auto.
Qed.

(** C5, as amended.  On a live connection a vote request answers
    InvalidVoteType exactly when the requested type is not one of -1, 0, +1;
    it answers ItemNotFound exactly when the requested type is one of them
    and the id does not resolve to a stored item of the kind (the type is
    checked first); and in both cases nothing is written. *)
Theorem applyVote_errors (s : State) (u : ObjectId) (itemId : option ObjectId)
    (k : ItemType) (vt : jsvalue) :
  connected s = true ->
  (fst (run (applyVote u itemId k vt) s) = InvalidVoteType <-> ~ valid_type vt) /\
  (fst (run (applyVote u itemId k vt) s) = ItemNotFound k
     <-> valid_type vt /\ resolves s itemId k = false) /\
  (fst (run (applyVote u itemId k vt) s) = InvalidVoteType \/
   fst (run (applyVote u itemId k vt) s) = ItemNotFound k ->
   snd (run (applyVote u itemId k vt) s) = s).
Proof.
  intros Hc.
  destruct (includes [1; 0; -1] vt) eqn:Hv.
  - assert (V : valid_type vt) by (apply valid_type_includes, Hv).
    destruct k; unfold applyVote, post_vote, comment_vote; rewrite Hv; simpl.
    + destruct itemId as [i|]; online Hc.
      * destruct (find _ (posts s)) as [p|] eqn:F; online Hc.
        2:{ unfold ItemNotFound, InvalidVoteType. repeat split; try tauto; try congruence. }
        pose proof (post_vote_apply_status s u (number_of vt) p
                      (find (vote_matches u (post_id p) post_t) (votes s)) Hc) as St.
        unfold ItemNotFound, InvalidVoteType.
        split; [|split].
        -- split; [|tauto]. intros E. rewrite E in St. simpl in St. destruct St; discriminate.
        -- split; [|intros [_ E]; discriminate].
           intros E. rewrite E in St. simpl in St. destruct St; discriminate.
        -- intros [E|E]; rewrite E in St; simpl in St; destruct St; discriminate.
      * unfold ItemNotFound, InvalidVoteType. repeat split; try tauto; try congruence.
    + destruct itemId as [i|]; online Hc.
      * destruct (find _ (comments s)) as [p|] eqn:F; online Hc.
        2:{ unfold ItemNotFound, InvalidVoteType. repeat split; try tauto; try congruence. }
        pose proof (comment_vote_apply_status s u (number_of vt) p
                      (find (vote_matches u (comment_id p) comment_t) (votes s)) Hc) as St.
        unfold ItemNotFound, InvalidVoteType.
        split; [|split].
        -- split; [|tauto]. intros E. rewrite E in St. simpl in St. destruct St; discriminate.
        -- split; [|intros [_ E]; discriminate].
           intros E. rewrite E in St. simpl in St. destruct St; discriminate.
        -- intros [E|E]; rewrite E in St; simpl in St; destruct St; discriminate.
      * unfold ItemNotFound, InvalidVoteType. repeat split; try tauto; try congruence.
  - assert (V : ~ valid_type vt).
    { intros V. apply valid_type_includes in V. congruence. }
    destruct k; unfold applyVote, post_vote, comment_vote; rewrite Hv; simpl;
      unfold ItemNotFound, InvalidVoteType; repeat split; try tauto; try congruence.
Qed.

Lemma applyVote_errors_witness :
  let s := boot [] 0 0 in
  connected s = true /\
  fst (run (applyVote 1 (Some 5%nat) post_t (JNum 1)) s) = ItemNotFound post_t /\
  snd (run (applyVote 1 (Some 5%nat) post_t (JNum 1)) s) = s.
Proof.
  pose proof (applyVote_errors (boot [] 0 0) 1 (Some 5%nat) post_t (JNum 1) eq_refl)
    as [_ [H2 H3]].
  split; [reflexivity|]. split.
  - apply H2. split; [right; right; reflexivity|reflexivity].
  - apply H3. right. apply H2. split; [right; right; reflexivity|reflexivity].
Defined.

(** C5, as stated, fails: with requested type 2 and an id that resolves to
    nothing, the answer is InvalidVoteType, not ItemNotFound. *)
Lemma applyVote_not_found_counterexample :
  ~ (fst (run (applyVote 1 (Some 5%nat) post_t (JNum 2)) (boot [] 0 0)) = ItemNotFound post_t
     <-> resolves (boot [] 0 0) (Some 5%nat) post_t = false).
Proof.
  intros [_ H]. specialize (H eq_refl). simpl in H. discriminate H.
Qed.

(** ** Frame of a vote *)

Lemma vote_matches_write (d : Vote) (u i : ObjectId) (k : ItemType) (v : Vote) :
  vote_matches u i k (vote_write d v) = vote_matches u i k v.
Proof. unfold vote_write. destruct (vote_id v =? vote_id d)%nat; reflexivity. Qed.

Lemma NoDup_vote_id (vs : list Vote) (v w : Vote) :
  NoDup (map vote_id vs) -> In v vs -> In w vs -> vote_id w = vote_id v -> w = v.
Proof.
  induction vs as [|a vs IH]; simpl; [tauto|].
  intros N Hv Hw E. inversion N as [|x l Hn N']; subst.
  destruct Hv as [->|Hv], Hw as [->|Hw]; auto.
  - exfalso. apply Hn. rewrite <- E. apply in_map, Hw.
  - exfalso. apply Hn. rewrite E. apply in_map, Hv.
Qed.

Section Others.
Variables (u i : ObjectId) (k : ItemType).
Let other (w : Vote) : bool := negb (vote_matches u i k w).

Lemma others_remove (id : ObjectId) (l : list Vote) :
  (forall w, In w l -> vote_id w = id -> vote_matches u i k w = true) ->
  filter other (filter (fun w => negb (vote_id w =? id)%nat) l) = filter other l.
Proof.
  induction l as [|a l IH]; intros H; simpl; [reflexivity|].
  assert (IH' := IH (fun w Hw => H w (or_intror Hw))).
  destruct (vote_id a =? id)%nat eqn:E; simpl.
  - apply Nat.eqb_eq in E.
    assert (O : other a = false).
    { unfold other. rewrite (H a (or_introl eq_refl) E). reflexivity. }
    rewrite O. exact IH'.
  - rewrite IH'. reflexivity.
Qed.

Lemma others_write (d : Vote) (l : list Vote) :
  (forall w, In w l -> vote_id w = vote_id d -> vote_matches u i k w = true) ->
  filter other (map (vote_write d) l) = filter other l.
Proof.
  induction l as [|a l IH]; intros H; simpl; [reflexivity|].
  assert (O : other (vote_write d a) = other a).
  { unfold other. rewrite vote_matches_write. reflexivity. }
  rewrite O, IH by (intros w Hw; apply H; right; exact Hw).
  destruct (other a) eqn:M; [|reflexivity].
  f_equal. unfold vote_write. destruct (vote_id a =? vote_id d)%nat eqn:E; [|reflexivity].
  apply Nat.eqb_eq in E. unfold other in M.
  rewrite (H a (or_introl eq_refl) E) in M. discriminate.
Qed.

Lemma others_insert (d : Vote) (l : list Vote) :
  vote_matches u i k d = true -> filter other (l ++ [d]) = filter other l.
Proof.
  intros M. rewrite filter_app. simpl.
  assert (O : other d = false) by (unfold other; rewrite M; reflexivity).
  rewrite O. apply app_nil_r.
Qed.
End Others.

Lemma post_kept_refl i k p : post_kept i k p p.
Proof. split; [destruct p; reflexivity|left; reflexivity]. Qed.

Lemma comment_kept_refl i k c : comment_kept i k c c.
Proof. split; [destruct c; reflexivity|left; reflexivity]. Qed.

Lemma Forall2_refl {A} (R : A -> A -> Prop) (l : list A) :
  (forall a, R a a) -> Forall2 R l l.
Proof. intros H. induction l; constructor; auto. Qed.

Lemma pick_same {A} (eqb : A -> A -> bool) (a stored : A) :
  eqb a a = true -> pick eqb a a stored = stored.
Proof. unfold pick. intros ->. reflexivity. Qed.

Lemma post_write_votes_kept (p : Post) (x : Z) (l : list Post) :
  Forall2 (post_kept (post_id p) post_t) l (map (post_write p (post_with_votes p x)) l).
Proof.
  induction l as [|a l IH]; simpl; constructor; [|exact IH].
  unfold post_write. simpl. destruct (post_id a =? post_id p)%nat eqn:E.
  - apply Nat.eqb_eq in E.
    rewrite !pick_same by (apply String.eqb_refl || apply Bool.eqb_reflx).
    split; [reflexivity|]. right. split; [reflexivity|exact E].
  - apply post_kept_refl.
Qed.

Lemma comment_write_votes_kept (c : Comment) (x : Z) (l : list Comment) :
  Forall2 (comment_kept (comment_id c) comment_t) l
          (map (comment_write c (comment_with_votes c x)) l).
Proof.
  induction l as [|a l IH]; simpl; constructor; [|exact IH].
  unfold comment_write. simpl. destruct (comment_id a =? comment_id c)%nat eqn:E.
  - apply Nat.eqb_eq in E.
    rewrite !pick_same by (apply String.eqb_refl || apply Bool.eqb_reflx).
    split; [reflexivity|]. right. split; [reflexivity|exact E].
  - apply comment_kept_refl.
Qed.

Lemma found_owns_id (s : State) (u i : ObjectId) (k : ItemType) (v : Vote) :
  NoDup (map vote_id (votes s)) ->
  find (vote_matches u i k) (votes s) = Some v ->
  forall w, In w (votes s) -> vote_id w = vote_id v -> vote_matches u i k w = true.
Proof.
  intros N F w Hw E. apply find_some in F. destruct F as [Hv M].
  rewrite (NoDup_vote_id (votes s) v w N Hv Hw E). exact M.
Qed.

Ltac frame_votes N F :=
  first [ reflexivity
        | apply others_remove; eapply found_owns_id; [exact N|exact F]
        | apply others_write; simpl; eapply found_owns_id; [exact N|exact F]
        | apply others_insert; unfold vote_matches; simpl; rewrite !Nat.eqb_refl; reflexivity ].

Lemma post_vote_apply_frame s u vt p v :
  NoDup (map vote_id (votes s)) ->
  find (vote_matches u (post_id p) post_t) (votes s) = v ->
  frame u (post_id p) post_t s (snd (run (post_vote_apply u vt p v) s)).
Proof.
  intros N F. unfold post_vote_apply, post_vote_finish, await, catch_404, frame.
  destruct (connected s) eqn:Hc.
  - repeat (online Hc; try split_match);
      (split;
       [ first [apply post_write_votes_kept | apply Forall2_refl, post_kept_refl]
       | split; [apply Forall2_refl, comment_kept_refl | frame_votes N F] ]).
  - repeat (offline Hc; try split_match);
      (split;
       [ first [apply post_write_votes_kept | apply Forall2_refl, post_kept_refl]
       | split; [apply Forall2_refl, comment_kept_refl | frame_votes N F] ]).
Qed.

Lemma comment_vote_apply_frame s u vt c v :
  NoDup (map vote_id (votes s)) ->
  find (vote_matches u (comment_id c) comment_t) (votes s) = v ->
  frame u (comment_id c) comment_t s (snd (run (comment_vote_apply u vt c v) s)).
Proof.
  intros N F. unfold comment_vote_apply, comment_vote_finish, await, catch_404, frame.
  destruct (connected s) eqn:Hc.
  - repeat (online Hc; try split_match);
      (split;
       [ apply Forall2_refl, post_kept_refl
       | split; [ first [apply comment_write_votes_kept
                        | apply Forall2_refl, comment_kept_refl]
                | frame_votes N F] ]).
  - repeat (offline Hc; try split_match);
      (split;
       [ apply Forall2_refl, post_kept_refl
       | split; [ first [apply comment_write_votes_kept
                        | apply Forall2_refl, comment_kept_refl]
                | frame_votes N F] ]).
Qed.

Lemma frame_refl u i k s : frame u i k s s.
Proof.
  split; [|split]; [apply Forall2_refl, post_kept_refl|apply Forall2_refl, comment_kept_refl|reflexivity].
Qed.

(** C10. A vote of user [u] on item [i] of kind [k] leaves every stored post
    and comment as it was in every field but the score, leaves the score of
    every item other than [i] as it was, and leaves every Vote record other
    than the one of [u] on [i] as it was. *)
Theorem applyVote_frame (s : State) (u i : ObjectId) (k : ItemType) (vt : jsvalue) :
  NoDup (map vote_id (votes s)) ->
  frame u i k s (snd (run (applyVote u (Some i) k vt) s)).
Proof.
  intros N. destruct k; unfold applyVote, post_vote, comment_vote, await, catch_404;
    (destruct (includes [1; 0; -1] vt); simpl; [|apply frame_refl]);
    destruct (connected s) eqn:Hc.
  - online Hc. destruct (find _ (posts s)) as [p|] eqn:Fp; online Hc; [|apply frame_refl].
    apply find_some in Fp. destruct Fp as [_ E]. apply Nat.eqb_eq in E. subst i.
    apply post_vote_apply_frame; [exact N|reflexivity].
  - offline Hc. apply frame_refl.
  - online Hc. destruct (find _ (comments s)) as [c|] eqn:Fc; online Hc; [|apply frame_refl].
    apply find_some in Fc. destruct Fc as [_ E]. apply Nat.eqb_eq in E. subst i.
    apply comment_vote_apply_frame; [exact N|reflexivity].
  - offline Hc. apply frame_refl.
Qed.

Lemma applyVote_frame_witness :
  let s := mkState [mkPost 0 "t" "x" 7 "m" 1 false 0] []
                   [mkVote 1 7 0 post_t 1 0] ["m"] 2 0 true in
  NoDup (map vote_id (votes s)) /\
  frame 8 0 post_t s (snd (run (applyVote 8 (Some 0%nat) post_t (JNum (-1))) s)).
Proof.
  assert (N : NoDup (map vote_id [mkVote 1 7 0 post_t 1 0])).
  { simpl. constructor; [intros []|constructor]. }
  split; [exact N|].
  exact (applyVote_frame
           (mkState [mkPost 0 "t" "x" 7 "m" 1 false 0] []
                    [mkVote 1 7 0 post_t 1 0] ["m"] 2 0 true)
           8 0%nat post_t (JNum (-1)) N).
Defined.

(** ** Sums of votes *)

Lemma vote_sum_cons j k v vs : vote_sum (v :: vs) j k = weight j k v + vote_sum vs j k.
Proof. unfold vote_sum, weight. simpl. destruct (vote_on j k v); reflexivity. Qed.

Lemma vote_sum_nil j k : vote_sum [] j k = 0.
Proof. reflexivity. Qed.

Lemma vote_sum_insert j k d vs : vote_sum (vs ++ [d]) j k = vote_sum vs j k + weight j k d.
Proof.
  induction vs as [|a vs IH]; [rewrite app_nil_l, !vote_sum_cons, vote_sum_nil; lia|].
  rewrite <- app_comm_cons, !vote_sum_cons, IH. lia.
Qed.

Lemma vote_sum_absent j k id vs :
  has_vote id vs = false ->
  vote_sum (filter (fun w => negb (vote_id w =? id)%nat) vs) j k = vote_sum vs j k.
Proof.
  induction vs as [|a vs IH]; simpl; [reflexivity|].
  intros H. apply orb_false_iff in H. destruct H as [Ha H].
  rewrite Ha. simpl. rewrite !vote_sum_cons, IH by exact H. reflexivity.
Qed.

Lemma has_vote_in id vs : has_vote id vs = true <-> In id (map vote_id vs).
Proof.
  unfold has_vote. rewrite existsb_exists, in_map_iff.
  split; intros [v [H1 H2]]; exists v.
  - apply Nat.eqb_eq in H2. tauto.
  - split; [tauto|]. apply Nat.eqb_eq. tauto.
Qed.

Lemma has_vote_notin id vs : ~ In id (map vote_id vs) -> has_vote id vs = false.
Proof.
  intros H. destruct (has_vote id vs) eqn:E; [|reflexivity].
  apply has_vote_in in E. contradiction.
Qed.

Lemma vote_sum_remove j k v vs :
  NoDup (map vote_id vs) -> In v vs ->
  vote_sum (filter (fun w => negb (vote_id w =? vote_id v)%nat) vs) j k
  = vote_sum vs j k - weight j k v.
Proof.
  induction vs as [|a vs IH]; simpl; [tauto|].
  intros N Hv. inversion N as [|x l Hn N']; subst.
  destruct Hv as [->|Hv].
  - rewrite Nat.eqb_refl. simpl. rewrite vote_sum_cons.
    rewrite vote_sum_absent by (apply has_vote_notin, Hn). lia.
  - destruct (vote_id a =? vote_id v)%nat eqn:E.
    + apply Nat.eqb_eq in E. exfalso. apply Hn. rewrite E. apply in_map, Hv.
    + simpl. rewrite !vote_sum_cons, IH by assumption. lia.
Qed.

Lemma vote_write_absent d vs :
  has_vote (vote_id d) vs = false -> map (vote_write d) vs = vs.
Proof.
  induction vs as [|a vs IH]; simpl; [reflexivity|].
  intros H. apply orb_false_iff in H. destruct H as [Ha H].
  unfold vote_write at 1. rewrite Ha, IH by exact H. reflexivity.
Qed.

Lemma weight_with_value j k v x :
  weight j k (vote_with_value v x) = if vote_on j k v then x else 0.
Proof. reflexivity. Qed.

Lemma vote_sum_write j k v x vs :
  NoDup (map vote_id vs) -> In v vs ->
  vote_sum (map (vote_write (vote_with_value v x)) vs) j k
  = vote_sum vs j k + (if vote_on j k v then x - vote_value v else 0).
Proof.
  induction vs as [|a vs IH]; simpl; [tauto|].
  intros N Hv. inversion N as [|y l Hn N']; subst.
  destruct Hv as [->|Hv].
  - unfold vote_write at 1. simpl. rewrite Nat.eqb_refl.
    rewrite vote_write_absent by (apply has_vote_notin, Hn).
    rewrite !vote_sum_cons, weight_with_value. unfold weight.
    destruct (vote_on j k v); lia.
  - unfold vote_write at 1. simpl. destruct (vote_id a =? vote_id v)%nat eqn:E.
    + apply Nat.eqb_eq in E. exfalso. apply Hn. rewrite E. apply in_map, Hv.
    + rewrite !vote_sum_cons, IH by assumption. lia.
Qed.

Lemma vote_on_true i k v : vote_on i k v = true <-> vote_item v = i /\ vote_itemType v = k.
Proof.
  unfold vote_on. rewrite andb_true_iff, Nat.eqb_eq.
  destruct (vote_itemType v), k; simpl; intuition congruence.
Qed.

Lemma vote_sum_deleteMany i k j k' vs :
  vote_sum (filter (fun v => negb (vote_on i k v)) vs) j k'
  = if (j =? i)%nat && ItemType_eqb k' k then 0 else vote_sum vs j k'.
Proof.
  induction vs as [|a vs IH]; simpl.
  - destruct ((j =? i)%nat && ItemType_eqb k' k); reflexivity.
  - destruct (vote_on i k a) eqn:E; simpl; rewrite ?vote_sum_cons, IH.
    + destruct ((j =? i)%nat && ItemType_eqb k' k) eqn:E2; [reflexivity|].
      unfold weight. destruct (vote_on j k' a) eqn:E3; [|lia].
      apply vote_on_true in E, E3. destruct E as [<- <-], E3 as [<- <-].
      rewrite Nat.eqb_refl in E2. destruct (vote_itemType a); discriminate.
    + destruct ((j =? i)%nat && ItemType_eqb k' k) eqn:E2; [|reflexivity].
      apply andb_true_iff in E2. destruct E2 as [E2 E3]. apply Nat.eqb_eq in E2. subst j.
      unfold weight. destruct (vote_on i k' a) eqn:E4; [|lia].
      apply vote_on_true in E4. destruct E4 as [E4 E5].
      assert (vote_on i k a = true).
      { apply vote_on_true. split; [exact E4|]. destruct k, k'; simpl in E3; congruence. }
      congruence.
Qed.

(** ** The vote routes, case by case *)

Lemma post_modified_votes p y :
  post_modified p (post_with_votes p y) = negb (post_votes p =? y).
Proof.
  unfold post_modified. simpl. rewrite !String.eqb_refl, Bool.eqb_reflx. reflexivity.
Qed.

Lemma comment_modified_votes c y :
  comment_modified c (comment_with_votes c y) = negb (comment_votes c =? y).
Proof.
  unfold comment_modified. simpl. rewrite !String.eqb_refl, Bool.eqb_reflx. reflexivity.
Qed.

Lemma find_post_id i ps p :
  find (fun q => (post_id q =? i)%nat) ps = Some p ->
  In p ps /\ post_id p = i /\ has_post i ps = true.
Proof.
  intros F. pose proof (find_some_existsb _ _ _ F) as E.
  apply find_some in F. destruct F as [H1 H2]. apply Nat.eqb_eq in H2. auto.
Qed.

Lemma find_comment_id i cs c :
  find (fun q => (comment_id q =? i)%nat) cs = Some c ->
  In c cs /\ comment_id c = i /\ has_comment i cs = true.
Proof.
  intros F. pose proof (find_some_existsb _ _ _ F) as E.
  apply find_some in F. destruct F as [H1 H2]. apply Nat.eqb_eq in H2. auto.
Qed.

Lemma found_has_vote P vs v : find P vs = Some v -> has_vote (vote_id v) vs = true.
Proof.
  intros F. apply find_some in F. destruct F as [H _].
  unfold has_vote. apply existsb_exists. exists v. split; [exact H|apply Nat.eqb_refl].
Qed.

Lemma fresh_vote_id s : ids_ok s -> has_vote (nextId s) (votes s) = false.
Proof.
  intros I. destruct (has_vote (nextId s) (votes s)) eqn:E; [|reflexivity].
  unfold has_vote in E. apply existsb_exists in E. destruct E as [v [Hv E]].
  apply Nat.eqb_eq in E. pose proof (votes_issued s I) as F.
  rewrite Forall_forall in F. specialize (F v Hv). lia.
Qed.

Lemma vote_matches_true u i k v :
  vote_matches u i k v = true <->
  vote_user v = u /\ vote_item v = i /\ vote_itemType v = k.
Proof.
  unfold vote_matches. rewrite !andb_true_iff, !Nat.eqb_eq.
  destruct (vote_itemType v), k; simpl; intuition congruence.
Qed.

Lemma no_vote_of_pair_post s u i :
  ids_ok s -> has_post i (posts s) = true ->
  find (vote_matches u i post_t) (votes s) = None ->
  existsb (same_user_item u i) (votes s) = false.
Proof.
  intros I Hp F. destruct (existsb _ (votes s)) eqn:E; [|reflexivity].
  apply existsb_exists in E. destruct E as [v [Hv E]].
  apply same_user_item_true in E. destruct E as [E1 E2].
  pose proof (votes_on_posts s I) as K. rewrite Forall_forall in K.
  specialize (K v Hv). rewrite E2 in K. specialize (K Hp).
  apply find_none_existsb in F.
  assert (existsb (vote_matches u i post_t) (votes s) = true); [|congruence].
  apply existsb_exists. exists v. split; [exact Hv|]. apply vote_matches_true. auto.
Qed.

Lemma no_vote_of_pair_comment s u i :
  ids_ok s -> has_comment i (comments s) = true ->
  find (vote_matches u i comment_t) (votes s) = None ->
  existsb (same_user_item u i) (votes s) = false.
Proof.
  intros I Hp F. destruct (existsb _ (votes s)) eqn:E; [|reflexivity].
  apply existsb_exists in E. destruct E as [v [Hv E]].
  apply same_user_item_true in E. destruct E as [E1 E2].
  pose proof (votes_on_comments s I) as K. rewrite Forall_forall in K.
  specialize (K v Hv). rewrite E2 in K. specialize (K Hp).
  apply find_none_existsb in F.
  assert (existsb (vote_matches u i comment_t) (votes s) = true); [|congruence].
  apply existsb_exists. exists v. split; [exact Hv|]. apply vote_matches_true. auto.
Qed.

Lemma set_posts_same s : set_posts s (posts s) = s.
Proof. destruct s; reflexivity. Qed.

Lemma set_comments_same s : set_comments s (comments s) = s.
Proof. destruct s; reflexivity. Qed.

Lemma post_with_votes_same q : post_with_votes q (post_votes q) = q.
Proof. destruct q; reflexivity. Qed.

Lemma comment_with_votes_same q : comment_with_votes q (comment_votes q) = q.
Proof. destruct q; reflexivity. Qed.

(** The last step of a post vote, when every stored post of that id has the
    score that was loaded. *)
Lemma post_vote_finish_run s p d :
  connected s = true -> In p (posts s) ->
  (forall q, In q (posts s) -> post_id q = post_id p -> post_votes q = post_votes p) ->
  run (post_vote_finish p d) s
  = (json 200 (Votes (post_votes p + d)),
     set_posts s (posts_rescored (post_id p) (post_votes p + d) (posts s))).
Proof.
  intros Hc Hp Same. unfold post_vote_finish, await. simpl.
  rewrite post_modified_votes.
  assert (Hhas : has_post (post_id p) (posts s) = true).
  { unfold has_post. apply existsb_exists. exists p. split; [exact Hp|apply Nat.eqb_refl]. }
  rewrite online_on by exact Hc. rewrite Hhas.
  destruct (post_votes p =? post_votes p + d) eqn:E; simpl.
  - apply Z.eqb_eq in E. rewrite <- E. f_equal.
    replace (posts_rescored (post_id p) (post_votes p) (posts s)) with (posts s);
      [symmetry; apply set_posts_same|].
    unfold posts_rescored. rewrite <- (map_id (posts s)) at 1.
    apply map_ext_in. intros q Hq.
    destruct (post_id q =? post_id p)%nat eqn:Eq; [|reflexivity].
    apply Nat.eqb_eq in Eq. rewrite <- (Same q Hq Eq). symmetry. apply post_with_votes_same.
  - do 2 f_equal.
    unfold posts_rescored. apply map_ext_in. intros q Hq.
    unfold post_write. simpl. destruct (post_id q =? post_id p)%nat eqn:Eq; [|reflexivity].
    unfold pick. rewrite !String.eqb_refl, Bool.eqb_reflx, E. destruct q; reflexivity.
Qed.

Lemma comment_vote_finish_run s c d :
  connected s = true -> In c (comments s) ->
  (forall q, In q (comments s) -> comment_id q = comment_id c ->
             comment_votes q = comment_votes c) ->
  run (comment_vote_finish c d) s
  = (json 200 (Votes (comment_votes c + d)),
     set_comments s (comments_rescored (comment_id c) (comment_votes c + d) (comments s))).
Proof.
  intros Hc Hp Same. unfold comment_vote_finish, await. simpl.
  rewrite comment_modified_votes.
  assert (Hhas : has_comment (comment_id c) (comments s) = true).
  { unfold has_comment. apply existsb_exists. exists c. split; [exact Hp|apply Nat.eqb_refl]. }
  rewrite online_on by exact Hc. rewrite Hhas.
  destruct (comment_votes c =? comment_votes c + d) eqn:E; simpl.
  - apply Z.eqb_eq in E. rewrite <- E. f_equal.
    replace (comments_rescored (comment_id c) (comment_votes c) (comments s)) with (comments s);
      [symmetry; apply set_comments_same|].
    unfold comments_rescored. rewrite <- (map_id (comments s)) at 1.
    apply map_ext_in. intros q Hq.
    destruct (comment_id q =? comment_id c)%nat eqn:Eq; [|reflexivity].
    apply Nat.eqb_eq in Eq. rewrite <- (Same q Hq Eq). symmetry. apply comment_with_votes_same.
  - do 2 f_equal.
    unfold comments_rescored. apply map_ext_in. intros q Hq.
    unfold comment_write. simpl. destruct (comment_id q =? comment_id c)%nat eqn:Eq; [|reflexivity].
    unfold pick. rewrite !String.eqb_refl, Bool.eqb_reflx, E. destruct q; reflexivity.
Qed.

Lemma same_score_posts s p :
  scores_ok s -> In p (posts s) ->
  forall q, In q (posts s) -> post_id q = post_id p -> post_votes q = post_votes p.
Proof.
  intros [S _] Hp q Hq E. rewrite Forall_forall in S.
  rewrite (S q Hq), (S p Hp), E. reflexivity.
Qed.

Lemma same_score_comments s c :
  scores_ok s -> In c (comments s) ->
  forall q, In q (comments s) -> comment_id q = comment_id c ->
            comment_votes q = comment_votes c.
Proof.
  intros [_ S] Hp q Hq E. rewrite Forall_forall in S.
  rewrite (S q Hq), (S c Hp), E. reflexivity.
Qed.

(** What a vote on a stored post does, in terms of the spec's table: the
    answer carries the loaded score plus the table's delta, the Vote store is
    the one the table's action yields, and the post has the new score. *)
Lemma post_vote_apply_table s u vt p :
  connected s = true -> consistent s -> In p (posts s) ->
  vt = -1 \/ vt = 0 \/ vt = 1 ->
  let existing := find (vote_matches u (post_id p) post_t) (votes s) in
  let a := fst (transition (option_map vote_value existing) vt) in
  let d := snd (transition (option_map vote_value existing) vt) in
  run (post_vote_apply u vt p existing) s
  = (json 200 (Votes (post_votes p + d)),
     after_vote s (posts_rescored (post_id p) (post_votes p + d) (posts s)) (comments s)
                a u (post_id p) post_t existing).
Proof.
  intros Hc [S [I V]] Hp Hvt. simpl.
  pose proof (same_score_posts s p S Hp) as Same.
  assert (Hhas : has_post (post_id p) (posts s) = true).
  { unfold has_post. apply existsb_exists. exists p. split; [exact Hp|apply Nat.eqb_refl]. }
  unfold post_vote_apply, await, transition, after_vote.
  remember (post_vote_finish p) as finish eqn:Hfin.
  destruct (find (vote_matches u (post_id p) post_t) (votes s)) as [v|] eqn:F; simpl.
  - pose proof (found_has_vote _ _ _ F) as Hv.
    assert (Vv : vote_value v = -1 \/ vote_value v = 1).
    { unfold values_ok in V. rewrite Forall_forall in V. apply V.
      apply find_some in F. tauto. }
    destruct (vt =? 0) eqn:E0; [|destruct (vt =? vote_value v) eqn:E1].
    + online Hc. subst finish. rewrite post_vote_finish_run by assumption.
      apply Z.eqb_eq in E0. subst vt. simpl. reflexivity.
    + online Hc. rewrite Z.eqb_sym, E1. online Hc. rewrite Hv.
      subst finish. rewrite post_vote_finish_run by assumption.
      apply Z.eqb_eq in E1. subst vt. rewrite Z.sub_diag. destruct s; reflexivity.
    + online Hc. rewrite Z.eqb_sym, E1.
      assert (Hen : VoteSchema_value_enum vt = true).
      { unfold VoteSchema_value_enum. lia. }
      rewrite Hen. online Hc. rewrite Hv. simpl.
      subst finish. rewrite post_vote_finish_run by assumption.
      replace (vt - vote_value v) with (-2 * vote_value v) by lia.
      unfold set_posts, set_votes. simpl. do 2 f_equal.
      apply map_ext. intros w. unfold vote_write. simpl.
      replace vt with (- vote_value v) by lia. reflexivity.
  - destruct (vt =? 0) eqn:E0; simpl.
    + subst finish. rewrite post_vote_finish_run by assumption. destruct s; reflexivity.
    + assert (Hen : VoteSchema_value_enum vt = true).
      { unfold VoteSchema_value_enum. lia. }
      rewrite Hen. online Hc. rewrite (fresh_vote_id s I). simpl.
      rewrite (no_vote_of_pair_post s u (post_id p) I Hhas F). simpl.
      subst finish. rewrite post_vote_finish_run by assumption. reflexivity.
Qed.

Lemma comment_vote_apply_table s u vt p :
  connected s = true -> consistent s -> In p (comments s) ->
  vt = -1 \/ vt = 0 \/ vt = 1 ->
  let existing := find (vote_matches u (comment_id p) comment_t) (votes s) in
  let a := fst (transition (option_map vote_value existing) vt) in
  let d := snd (transition (option_map vote_value existing) vt) in
  run (comment_vote_apply u vt p existing) s
  = (json 200 (Votes (comment_votes p + d)),
     after_vote s (posts s) (comments_rescored (comment_id p) (comment_votes p + d) (comments s))
                a u (comment_id p) comment_t existing).
Proof.
  intros Hc [S [I V]] Hp Hvt. simpl.
  pose proof (same_score_comments s p S Hp) as Same.
  assert (Hhas : has_comment (comment_id p) (comments s) = true).
  { unfold has_comment. apply existsb_exists. exists p. split; [exact Hp|apply Nat.eqb_refl]. }
  unfold comment_vote_apply, await, transition, after_vote.
  remember (comment_vote_finish p) as finish eqn:Hfin.
  destruct (find (vote_matches u (comment_id p) comment_t) (votes s)) as [v|] eqn:F; simpl.
  - pose proof (found_has_vote _ _ _ F) as Hv.
    assert (Vv : vote_value v = -1 \/ vote_value v = 1).
    { unfold values_ok in V. rewrite Forall_forall in V. apply V.
      apply find_some in F. tauto. }
    destruct (vt =? 0) eqn:E0; [|destruct (vt =? vote_value v) eqn:E1].
    + online Hc. subst finish. rewrite comment_vote_finish_run by assumption.
      apply Z.eqb_eq in E0. subst vt. simpl. reflexivity.
    + online Hc. rewrite Z.eqb_sym, E1. online Hc. rewrite Hv.
      subst finish. rewrite comment_vote_finish_run by assumption.
      apply Z.eqb_eq in E1. subst vt. rewrite Z.sub_diag. destruct s; reflexivity.
    + online Hc. rewrite Z.eqb_sym, E1.
      assert (Hen : VoteSchema_value_enum vt = true).
      { unfold VoteSchema_value_enum. lia. }
      rewrite Hen. online Hc. rewrite Hv. simpl.
      subst finish. rewrite comment_vote_finish_run by assumption.
      replace (vt - vote_value v) with (-2 * vote_value v) by lia.
      unfold set_comments, set_votes. simpl. do 2 f_equal.
      apply map_ext. intros w. unfold vote_write. simpl.
      replace vt with (- vote_value v) by lia. reflexivity.
  - destruct (vt =? 0) eqn:E0; simpl.
    + subst finish. rewrite comment_vote_finish_run by assumption. destruct s; reflexivity.
    + assert (Hen : VoteSchema_value_enum vt = true).
      { unfold VoteSchema_value_enum. lia. }
      rewrite Hen. online Hc. rewrite (fresh_vote_id s I). simpl.
      rewrite (no_vote_of_pair_comment s u (comment_id p) I Hhas F). simpl.
      subst finish. rewrite comment_vote_finish_run by assumption. reflexivity.
Qed.

(** ** The database after a vote *)

Lemma has_post_ids j ps : has_post j ps = existsb (fun n => (n =? j)%nat) (map post_id ps).
Proof. unfold has_post. induction ps as [|a l IH]; simpl; [reflexivity|]. rewrite IH. reflexivity. Qed.

Lemma has_comment_ids j cs :
  has_comment j cs = existsb (fun n => (n =? j)%nat) (map comment_id cs).
Proof. unfold has_comment. induction cs as [|a l IH]; simpl; [reflexivity|]. rewrite IH. reflexivity. Qed.

Lemma posts_rescored_ids i x ps : map post_id (posts_rescored i x ps) = map post_id ps.
Proof.
  unfold posts_rescored. rewrite map_map. apply map_ext. intros q.
  destruct (post_id q =? i)%nat; reflexivity.
Qed.

Lemma comments_rescored_ids i x cs : map comment_id (comments_rescored i x cs) = map comment_id cs.
Proof.
  unfold comments_rescored. rewrite map_map. apply map_ext. intros q.
  destruct (comment_id q =? i)%nat; reflexivity.
Qed.

Lemma in_same_image {A B} (f : A -> B) (l l' : list A) (a : A) :
  map f l = map f l' -> In a l -> exists a', In a' l' /\ f a' = f a.
Proof.
  intros E H. apply (in_map f) in H. rewrite E in H. apply in_map_iff in H.
  destruct H as [a' [H1 H2]]. exists a'. auto.
Qed.

Lemma perform_update_write v x vs :
  map (fun w => if (vote_id w =? vote_id v)%nat then vote_with_value w x else w) vs
  = map (vote_write (vote_with_value v x)) vs.
Proof. apply map_ext. intros w. reflexivity. Qed.

Lemma vote_on_item i k j k' v :
  vote_on i k v = true -> vote_on j k' v = (i =? j)%nat && ItemType_eqb k k'.
Proof.
  intros H. apply vote_on_true in H. destruct H as [<- <-]. reflexivity.
Qed.

Lemma existing_in s u i k existing v :
  existing = find (vote_matches u i k) (votes s) ->
  existing = Some v -> In v (votes s) /\ vote_on i k v = true.
Proof.
  intros Found E. rewrite Found in E. apply find_some in E. destruct E as [H M].
  split; [exact H|]. apply vote_matches_true in M. apply vote_on_true. tauto.
Qed.

Lemma perform_sum s u i k existing a j k' :
  ids_ok s -> existing = find (vote_matches u i k) (votes s) ->
  vote_sum (perform a u i k existing s) j k'
  = vote_sum (votes s) j k'
    + (if (i =? j)%nat && ItemType_eqb k k' then vote_delta a existing else 0).
Proof.
  intros I Found. pose proof (vote_ids_unique s I) as N.
  pose proof (existing_in s u i k existing) as Ex. specialize (fun v => Ex v Found).
  clear Found.
  destruct a as [|x| |x]; simpl.
  - destruct existing; destruct (_ && _); lia.
  - destruct existing; rewrite vote_sum_insert; unfold weight, vote_on; simpl;
      destruct (_ && _); lia.
  - destruct existing as [v|]; [|destruct (_ && _); lia].
    destruct (Ex v eq_refl) as [Hv On].
    rewrite vote_sum_remove by assumption. unfold weight.
    rewrite (vote_on_item i k j k' v On). destruct (_ && _); lia.
  - destruct existing as [v|]; [|destruct (_ && _); lia].
    destruct (Ex v eq_refl) as [Hv On].
    rewrite perform_update_write, vote_sum_write by assumption.
    rewrite (vote_on_item i k j k' v On). destruct (_ && _); lia.
Qed.

Lemma perform_values s u i k existing a :
  action_ok a existing -> values_ok (votes s) -> values_ok (perform a u i k existing s).
Proof.
  unfold values_ok. intros A V. destruct a as [|x| |x]; simpl.
  - destruct existing; exact V.
  - destruct A as [_ A]. destruct existing; (apply Forall_app; split; [exact V|]);
      constructor; simpl; auto.
  - destruct existing; [|exact V]. apply values_ok_filter, V.
  - destruct A as [_ A]. destruct existing as [v|]; [|exact V].
    rewrite Forall_map. eapply Forall_impl; [|exact V]. intros w Hw. simpl in *.
    destruct (vote_id w =? vote_id v)%nat; simpl; auto.
Qed.

Lemma perform_ids s u i k existing a :
  map vote_id (perform a u i k existing s)
  = match a with
    | insert_vote _ => (map vote_id (votes s) ++ [nextId s])%list
    | delete_vote =>
        match existing with
        | Some v => filter (fun n => negb (n =? vote_id v)%nat) (map vote_id (votes s))
        | None => map vote_id (votes s)
        end
    | _ => map vote_id (votes s)
    end.
Proof.
  destruct a as [|x| |x]; simpl.
  - destruct existing; reflexivity.
  - destruct existing; rewrite map_app; reflexivity.
  - destruct existing as [v|]; [|reflexivity].
    induction (votes s) as [|w l IH]; simpl; [reflexivity|].
    destruct (vote_id w =? vote_id v)%nat; simpl; rewrite IH; reflexivity.
  - destruct existing as [v|]; [|reflexivity].
    rewrite map_map. apply map_ext. intros w.
    destruct (vote_id w =? vote_id v)%nat; reflexivity.
Qed.

(** A record of the store after the action is a record of the store before
    it up to its value, or the inserted one. *)
Lemma perform_in s u i k existing a w :
  In w (perform a u i k existing s) ->
  (exists w0, In w0 (votes s) /\ vote_id w = vote_id w0 /\ vote_user w = vote_user w0
              /\ vote_item w = vote_item w0 /\ vote_itemType w = vote_itemType w0)
  \/ (exists x, a = insert_vote x /\ w = mkVote (nextId s) u i k x (clock s)).
Proof.
  destruct a as [|x| |x]; simpl; intros H.
  - left. exists w. destruct existing; auto.
  - assert (H' : In w (votes s ++ [mkVote (nextId s) u i k x (clock s)]))
      by (destruct existing; exact H).
    apply in_app_iff in H'. destruct H' as [H'|[H'|[]]].
    + left. exists w. auto.
    + right. exists x. auto.
  - left. exists w. destruct existing; [apply filter_In in H|]; tauto.
  - left. destruct existing as [v|]; [|exists w; auto].
    apply in_map_iff in H. destruct H as [w0 [E H]]. exists w0. subst w.
    destruct (vote_id w0 =? vote_id v)%nat; auto.
Qed.

Lemma has_post_same_ids j ps ps' :
  map post_id ps = map post_id ps' -> has_post j ps = has_post j ps'.
Proof. intros E. rewrite !has_post_ids, E. reflexivity. Qed.

Lemma has_comment_same_ids j cs cs' :
  map comment_id cs = map comment_id cs' -> has_comment j cs = has_comment j cs'.
Proof. intros E. rewrite !has_comment_ids, E. reflexivity. Qed.

Lemma has_post_issued s j : ids_ok s -> has_post j (posts s) = true -> (j < nextId s)%nat.
Proof.
  intros I H. unfold has_post in H. apply existsb_exists in H. destruct H as [p [Hp E]].
  apply Nat.eqb_eq in E. pose proof (posts_issued s I) as F. rewrite Forall_forall in F.
  specialize (F p Hp). lia.
Qed.

Lemma has_comment_issued s j :
  ids_ok s -> has_comment j (comments s) = true -> (j < nextId s)%nat.
Proof.
  intros I H. unfold has_comment in H. apply existsb_exists in H. destruct H as [p [Hp E]].
  apply Nat.eqb_eq in E. pose proof (comments_issued s I) as F. rewrite Forall_forall in F.
  specialize (F p Hp). lia.
Qed.

Lemma disjoint_post_comment s j :
  ids_ok s -> has_post j (posts s) = true -> has_comment j (comments s) = true -> False.
Proof.
  intros I H1 H2. unfold has_post in H1. apply existsb_exists in H1.
  destruct H1 as [p [Hp E]]. apply Nat.eqb_eq in E.
  pose proof (ids_disjoint s I) as D. rewrite Forall_forall in D.
  specialize (D p Hp). rewrite E in D. congruence.
Qed.

Lemma NoDup_snoc {A} (l : list A) (x : A) : NoDup l -> ~ In x l -> NoDup (l ++ [x]).
Proof.
  intros N H. induction l as [|a l IH]; simpl.
  - constructor; [intros []|constructor].
  - inversion N as [|y l' Hn N']; subst. constructor.
    + rewrite in_app_iff. simpl. intros [H1|[H1|[]]]; [contradiction|].
      apply H. left. symmetry. exact H1.
    + apply IH; [exact N'|]. intros H1. apply H. right. exact H1.
Qed.

(** Whatever the action, the ids stay in order as long as the items keep
    their ids and the item voted on is stored. *)
Lemma after_vote_ids_ok s ps cs a u i k existing :
  ids_ok s -> item_stored s i k ->
  map post_id ps = map post_id (posts s) ->
  map comment_id cs = map comment_id (comments s) ->
  ids_ok (after_vote s ps cs a u i k existing).
Proof.
  intros I St Ep Ec.
  assert (Hi : (i < nextId s)%nat).
  { destruct k; [eapply has_post_issued|eapply has_comment_issued]; eassumption. }
  constructor; simpl.
  - apply Forall_forall. intros p Hp.
    destruct (in_same_image post_id _ _ p Ep Hp) as [p0 [H0 <-]].
    pose proof (posts_issued s I) as F. rewrite Forall_forall in F. specialize (F p0 H0). destruct a; lia.
  - apply Forall_forall. intros c Hc.
    destruct (in_same_image comment_id _ _ c Ec Hc) as [c0 [H0 <-]].
    pose proof (comments_issued s I) as F. rewrite Forall_forall in F. specialize (F c0 H0). destruct a; lia.
  - apply Forall_forall. intros w Hw. pose proof (votes_issued s I) as F.
    rewrite Forall_forall in F.
    destruct (perform_in _ _ _ _ _ _ _ Hw) as [[w0 [H0 [E1 [_ [E2 _]]]]]|[x [-> ->]]].
    + specialize (F w0 H0). rewrite E1, E2. destruct a; lia.
    + simpl. lia.
  - rewrite perform_ids. pose proof (vote_ids_unique s I) as N. destruct a.
    + exact N.
    + apply NoDup_snoc; [exact N|]. intros H. apply has_vote_in in H.
      rewrite (fresh_vote_id s I) in H. discriminate.
    + destruct existing; [apply NoDup_filter|]; exact N.
    + exact N.
  - apply Forall_forall. intros w Hw. rewrite (has_post_same_ids _ _ _ Ep).
    pose proof (votes_on_posts s I) as F. rewrite Forall_forall in F.
    destruct (perform_in _ _ _ _ _ _ _ Hw) as [[w0 [H0 [_ [_ [E2 E3]]]]]|[x [-> ->]]].
    + rewrite E2, E3. apply F, H0.
    + simpl. intros H. destruct k; [reflexivity|].
      exfalso. eapply disjoint_post_comment; eassumption.
  - apply Forall_forall. intros w Hw. rewrite (has_comment_same_ids _ _ _ Ec).
    pose proof (votes_on_comments s I) as F. rewrite Forall_forall in F.
    destruct (perform_in _ _ _ _ _ _ _ Hw) as [[w0 [H0 [_ [_ [E2 E3]]]]]|[x [-> ->]]].
    + rewrite E2, E3. apply F, H0.
    + simpl. intros H. destruct k; [|reflexivity].
      exfalso. eapply disjoint_post_comment; eassumption.
  - apply Forall_forall. intros p Hp.
    destruct (in_same_image post_id _ _ p Ep Hp) as [p0 [H0 <-]].
    pose proof (ids_disjoint s I) as F. rewrite Forall_forall in F.
    rewrite (has_comment_same_ids _ _ _ Ec). apply F, H0.
Qed.

Lemma after_vote_scores_post s a u p existing :
  scores_ok s -> ids_ok s -> In p (posts s) ->
  existing = find (vote_matches u (post_id p) post_t) (votes s) ->
  scores_ok (after_vote s
               (posts_rescored (post_id p) (post_votes p + vote_delta a existing) (posts s))
               (comments s) a u (post_id p) post_t existing).
Proof.
  intros [Sp Sc] I Hp Found. rewrite Forall_forall in Sp, Sc.
  split; simpl; apply Forall_forall.
  - intros q' Hq'. unfold posts_rescored in Hq'. apply in_map_iff in Hq'.
    destruct Hq' as [q [E Hq]]. subst q'. rewrite perform_sum by assumption.
    destruct (post_id q =? post_id p)%nat eqn:Eq; simpl.
    + apply Nat.eqb_eq in Eq. rewrite Eq, Nat.eqb_refl. simpl. rewrite (Sp p Hp). reflexivity.
    + rewrite Nat.eqb_sym, Eq. simpl. rewrite (Sp q Hq). lia.
  - intros c Hc. rewrite perform_sum by assumption.
    rewrite andb_false_r. rewrite (Sc c Hc). lia.
Qed.

Lemma after_vote_scores_comment s a u c existing :
  scores_ok s -> ids_ok s -> In c (comments s) ->
  existing = find (vote_matches u (comment_id c) comment_t) (votes s) ->
  scores_ok (after_vote s (posts s)
               (comments_rescored (comment_id c)
                  (comment_votes c + vote_delta a existing) (comments s))
               a u (comment_id c) comment_t existing).
Proof.
  intros [Sp Sc] I Hp Found. rewrite Forall_forall in Sp, Sc.
  split; simpl; apply Forall_forall.
  - intros p Hq. rewrite perform_sum by assumption.
    rewrite andb_false_r. rewrite (Sp p Hq). lia.
  - intros q' Hq'. unfold comments_rescored in Hq'. apply in_map_iff in Hq'.
    destruct Hq' as [q [E Hq]]. subst q'. rewrite perform_sum by assumption.
    destruct (comment_id q =? comment_id c)%nat eqn:Eq; simpl.
    + apply Nat.eqb_eq in Eq. rewrite Eq, Nat.eqb_refl. simpl. rewrite (Sc c Hp). reflexivity.
    + rewrite Nat.eqb_sym, Eq. simpl. rewrite (Sc q Hq). lia.
Qed.

(** The table yields an action that can be carried out, and its delta is
    the move of the sum. *)
Lemma transition_sound vt existing :
  vt = -1 \/ vt = 0 \/ vt = 1 ->
  (forall v, existing = Some v -> vote_value v = -1 \/ vote_value v = 1) ->
  action_ok (fst (transition (option_map vote_value existing) vt)) existing /\
  snd (transition (option_map vote_value existing) vt)
  = vote_delta (fst (transition (option_map vote_value existing) vt)) existing.
Proof.
  intros Hvt V. unfold transition. destruct existing as [v|]; cbn [option_map].
  - specialize (V v eq_refl).
    destruct (vt =? 0) eqn:E0; [|destruct (vt =? vote_value v) eqn:E1];
      cbn [fst snd vote_delta action_ok].
    + split; [discriminate|reflexivity].
    + split; [exact I|reflexivity].
    + split; [|lia]. split; [discriminate|lia].
  - destruct (vt =? 0) eqn:E0; cbn [fst snd vote_delta action_ok];
      [split; [exact I|reflexivity]|].
    split; [|reflexivity]. split; [reflexivity|lia].
Qed.

(** ** Consistency is preserved: the vote routes *)

Lemma found_values s P v :
  values_ok (votes s) -> find P (votes s) = Some v -> vote_value v = -1 \/ vote_value v = 1.
Proof.
  unfold values_ok. rewrite Forall_forall. intros V F. apply V.
  apply find_some in F. tauto.
Qed.

Lemma valid_number vt :
  includes [1; 0; -1] vt = true ->
  number_of vt = -1 \/ number_of vt = 0 \/ number_of vt = 1.
Proof.
  intros H. apply valid_type_includes in H. destruct H as [-> | [-> | ->]]; simpl; auto.
Qed.

Lemma post_vote_apply_consistent s u vt p :
  connected s = true -> consistent s -> In p (posts s) ->
  vt = -1 \/ vt = 0 \/ vt = 1 ->
  consistent (snd (run (post_vote_apply u vt p
                          (find (vote_matches u (post_id p) post_t) (votes s))) s)).
Proof.
  intros Hc C Hp Hvt. rewrite (post_vote_apply_table s u vt p Hc C Hp Hvt).
  destruct C as [S [I V]]. cbn [snd].
  destruct (transition_sound vt (find (vote_matches u (post_id p) post_t) (votes s)) Hvt)
    as [A D].
  { intros v. apply found_values, V. }
  assert (St : item_stored s (post_id p) post_t).
  { unfold item_stored, has_post. apply existsb_exists. exists p.
    split; [exact Hp|apply Nat.eqb_refl]. }
  split; [|split].
  - rewrite D. apply after_vote_scores_post; auto.
  - apply after_vote_ids_ok; auto. apply posts_rescored_ids.
  - apply perform_values; assumption.
Qed.

Lemma comment_vote_apply_consistent s u vt c :
  connected s = true -> consistent s -> In c (comments s) ->
  vt = -1 \/ vt = 0 \/ vt = 1 ->
  consistent (snd (run (comment_vote_apply u vt c
                          (find (vote_matches u (comment_id c) comment_t) (votes s))) s)).
Proof.
  intros Hc C Hp Hvt. rewrite (comment_vote_apply_table s u vt c Hc C Hp Hvt).
  destruct C as [S [I V]]. cbn [snd].
  destruct (transition_sound vt (find (vote_matches u (comment_id c) comment_t) (votes s)) Hvt)
    as [A D].
  { intros v. apply found_values, V. }
  assert (St : item_stored s (comment_id c) comment_t).
  { unfold item_stored, has_comment. apply existsb_exists. exists c.
    split; [exact Hp|apply Nat.eqb_refl]. }
  split; [|split].
  - rewrite D. apply after_vote_scores_comment; auto.
  - apply after_vote_ids_ok; auto. apply comments_rescored_ids.
  - apply perform_values; assumption.
Qed.

Lemma post_vote_consistent s u i vt :
  consistent s -> consistent (snd (run (post_vote u i vt) s)).
Proof.
  intros C. unfold post_vote, await, catch_404.
  destruct (includes [1; 0; -1] vt) eqn:Hv; simpl; [|exact C].
  destruct i as [i|]; simpl; [|exact C].
  destruct (connected s) eqn:Hc.
  - online Hc. destruct (find _ (posts s)) as [p|] eqn:F; online Hc; [|exact C].
    apply find_post_id in F. destruct F as [Hp _].
    apply post_vote_apply_consistent; auto using valid_number.
  - offline Hc. exact C.
Qed.

Lemma comment_vote_consistent s u i vt :
  consistent s -> consistent (snd (run (comment_vote u i vt) s)).
Proof.
  intros C. unfold comment_vote, await, catch_404.
  destruct (includes [1; 0; -1] vt) eqn:Hv; simpl; [|exact C].
  destruct i as [i|]; simpl; [|exact C].
  destruct (connected s) eqn:Hc.
  - online Hc. destruct (find _ (comments s)) as [p|] eqn:F; online Hc; [|exact C].
    apply find_comment_id in F. destruct F as [Hp _].
    apply comment_vote_apply_consistent; auto using valid_number.
  - offline Hc. exact C.
Qed.

(** ** What a creation stores *)

Lemma fresh_post_id s n : ids_ok s -> (nextId s <= n)%nat -> has_post n (posts s) = false.
Proof.
  intros I Hn. destruct (has_post n (posts s)) eqn:E; [|reflexivity].
  apply (has_post_issued s n I) in E. lia.
Qed.

Lemma fresh_comment_id s n :
  ids_ok s -> (nextId s <= n)%nat -> has_comment n (comments s) = false.
Proof.
  intros I Hn. destruct (has_comment n (comments s)) eqn:E; [|reflexivity].
  apply (has_comment_issued s n I) in E. lia.
Qed.

Lemma fresh_vote s n : ids_ok s -> (nextId s <= n)%nat -> has_vote n (votes s) = false.
Proof.
  intros I Hn. destruct (has_vote n (votes s)) eqn:E; [|reflexivity].
  unfold has_vote in E. apply existsb_exists in E. destruct E as [v [Hv E]].
  apply Nat.eqb_eq in E. pose proof (votes_issued s I) as F.
  rewrite Forall_forall in F. specialize (F v Hv). lia.
Qed.

Lemma fresh_item s u n :
  ids_ok s -> (nextId s <= n)%nat -> existsb (same_user_item u n) (votes s) = false.
Proof.
  intros I Hn. destruct (existsb _ (votes s)) eqn:E; [|reflexivity].
  apply existsb_exists in E. destruct E as [v [Hv E]].
  apply same_user_item_true in E. pose proof (votes_issued s I) as F.
  rewrite Forall_forall in F. specialize (F v Hv). lia.
Qed.

Lemma post_write_absent l d ps :
  has_post (post_id d) ps = false -> map (post_write l d) ps = ps.
Proof.
  induction ps as [|a ps IH]; simpl; [reflexivity|].
  intros H. apply orb_false_iff in H. destruct H as [Ha H].
  unfold post_write at 1. rewrite Ha, IH by exact H. reflexivity.
Qed.

Lemma has_post_snoc ps p : has_post (post_id p) (ps ++ [p]) = true.
Proof.
  unfold has_post. rewrite existsb_app. simpl. rewrite Nat.eqb_refl.
  apply orb_true_iff. right. reflexivity.
Qed.

Lemma post_create_run s user title content community :
  connected s = true -> ids_ok s ->
  find (String.eqb community) (communities s) <> None ->
  run (post_create user [] title content community) s
  = (json 200 (PostJson (created_post s user title content community)),
     mkState (posts s ++ [created_post s user title content community]) (comments s)
             (votes s ++ [self_vote s user post_t]) (communities s)
             (S (S (nextId s))) (clock s) (connected s)).
Proof.
  intros Hc I Hm. unfold post_create, await, catch_500. online Hc.
  destruct (find (String.eqb community) (communities s)) as [m|]; [|contradiction].
  online Hc. rewrite (fresh_post_id s _ I (le_n _)). online Hc.
  rewrite (fresh_vote s (S (nextId s)) I) by lia. simpl.
  rewrite (fresh_item s user (nextId s) I) by lia. simpl.
  rewrite post_modified_votes. simpl. online Hc.
  pose proof (has_post_snoc (posts s)
                (mkPost (nextId s) title content user community 0 false (clock s))) as Hs.
  simpl in Hs. rewrite Hs. simpl. rewrite map_app, post_write_absent by (simpl; apply (fresh_post_id s _ I (le_n _))).
  simpl. unfold post_write, pick. simpl.
  rewrite Nat.eqb_refl, !String.eqb_refl. reflexivity.
Qed.

Lemma comment_create_run s user (i : ObjectId) p content :
  connected s = true -> ids_ok s ->
  find (fun q => (post_id q =? i)%nat) (posts s) = Some p ->
  run (comment_create user [] (Some i) content) s
  = (json 200 (CommentObj (created_comment s user (post_id p) content) true 1),
     mkState (posts s) (comments s ++ [created_comment s user (post_id p) content])
             (votes s ++ [self_vote s user comment_t]) (communities s)
             (S (S (nextId s))) (clock s) (connected s)).
Proof.
  intros Hc I F. unfold comment_create, await, catch_404. online Hc.
  rewrite F. online Hc. rewrite (fresh_comment_id s _ I (le_n _)). online Hc.
  rewrite (fresh_vote s (S (nextId s)) I) by lia. simpl.
  rewrite (fresh_item s user (nextId s) I) by lia. simpl.
  online Hc. reflexivity.
Qed.


Lemma vote_sum_fresh s n k : ids_ok s -> (nextId s <= n)%nat -> vote_sum (votes s) n k = 0.
Proof.
  intros I Hn. pose proof (votes_issued s I) as F. unfold vote_sum.
  induction (votes s) as [|v vs IH]; simpl; [reflexivity|].
  inversion F as [|x l Hv F']; subst. unfold vote_on at 1.
  replace (vote_item v =? n)%nat with false by (symmetry; apply Nat.eqb_neq; lia).
  simpl. apply IH, F'.
Qed.

Lemma has_post_app j ps p : has_post j (ps ++ [p]) = has_post j ps || (post_id p =? j)%nat.
Proof. unfold has_post. rewrite existsb_app. simpl. rewrite orb_false_r. reflexivity. Qed.

Lemma has_comment_app j cs c :
  has_comment j (cs ++ [c]) = has_comment j cs || (comment_id c =? j)%nat.
Proof. unfold has_comment. rewrite existsb_app. simpl. rewrite orb_false_r. reflexivity. Qed.

Lemma weight_self_vote s user k j k' :
  weight j k' (self_vote s user k) = if (nextId s =? j)%nat && ItemType_eqb k k' then 1 else 0.
Proof. reflexivity. Qed.

Ltac use_forall F x Hx := rewrite Forall_forall in F; specialize (F x Hx).

Lemma post_created_consistent s user title content community :
  consistent s ->
  consistent (mkState (posts s ++ [created_post s user title content community]) (comments s)
                      (votes s ++ [self_vote s user post_t]) (communities s)
                      (S (S (nextId s))) (clock s) (connected s)).
Proof.
  intros [[Sp Sc] [I V]].
  pose proof (posts_issued s I) as Ip. pose proof (comments_issued s I) as Ic.
  pose proof (votes_issued s I) as Iv.
  rewrite Forall_forall in Sp, Sc, Ip, Ic, Iv.
  split; [split|split; [constructor|]]; simpl.
  - apply Forall_app. split; [apply Forall_forall; intros q Hq|constructor; [|constructor]].
    + rewrite vote_sum_insert, weight_self_vote.
      replace (nextId s =? post_id q)%nat with false
        by (symmetry; apply Nat.eqb_neq; specialize (Ip q Hq); lia).
      simpl. rewrite (Sp q Hq). lia.
    + simpl. rewrite vote_sum_insert, weight_self_vote, Nat.eqb_refl.
      rewrite (vote_sum_fresh s _ post_t I (le_n _)). reflexivity.
  - apply Forall_forall. intros c Hc. rewrite vote_sum_insert, weight_self_vote.
    rewrite andb_false_r. rewrite (Sc c Hc). lia.
  - apply Forall_app. split; [apply Forall_forall; intros q Hq; specialize (Ip q Hq); lia|].
    constructor; [simpl; lia|constructor].
  - apply Forall_forall. intros c Hc. specialize (Ic c Hc). lia.
  - apply Forall_app. split; [apply Forall_forall; intros w Hw; specialize (Iv w Hw); lia|].
    constructor; [simpl; lia|constructor].
  - rewrite map_app. simpl. apply NoDup_snoc; [exact (vote_ids_unique s I)|].
    intros H. apply has_vote_in in H. rewrite (fresh_vote s _ I) in H by lia. discriminate.
  - apply Forall_app. split; [|constructor; [reflexivity|constructor]].
    apply Forall_forall. intros w Hw. rewrite has_post_app. simpl.
    replace (nextId s =? vote_item w)%nat with false
      by (symmetry; apply Nat.eqb_neq; specialize (Iv w Hw); lia).
    rewrite orb_false_r. pose proof (votes_on_posts s I) as K. use_forall K w Hw. exact K.
  - apply Forall_app. split; [exact (votes_on_comments s I)|].
    constructor; [|constructor]. simpl. rewrite (fresh_comment_id s _ I (le_n _)). discriminate.
  - apply Forall_app. split; [exact (ids_disjoint s I)|].
    constructor; [|constructor]. simpl. apply (fresh_comment_id s _ I (le_n _)).
  - apply Forall_app. split; [exact V|]. constructor; [simpl; auto|constructor].
Qed.

Lemma comment_created_consistent s user parent content :
  consistent s ->
  consistent (mkState (posts s) (comments s ++ [created_comment s user parent content])
                      (votes s ++ [self_vote s user comment_t]) (communities s)
                      (S (S (nextId s))) (clock s) (connected s)).
Proof.
  intros [[Sp Sc] [I V]].
  pose proof (posts_issued s I) as Ip. pose proof (comments_issued s I) as Ic.
  pose proof (votes_issued s I) as Iv.
  rewrite Forall_forall in Sp, Sc, Ip, Ic, Iv.
  split; [split|split; [constructor|]]; simpl.
  - apply Forall_forall. intros c Hc. rewrite vote_sum_insert, weight_self_vote.
    rewrite andb_false_r. rewrite (Sp c Hc). lia.
  - apply Forall_app. split; [apply Forall_forall; intros q Hq|constructor; [|constructor]].
    + rewrite vote_sum_insert, weight_self_vote.
      replace (nextId s =? comment_id q)%nat with false
        by (symmetry; apply Nat.eqb_neq; specialize (Ic q Hq); lia).
      simpl. rewrite (Sc q Hq). lia.
    + simpl. rewrite vote_sum_insert, weight_self_vote, Nat.eqb_refl.
      rewrite (vote_sum_fresh s _ comment_t I (le_n _)). reflexivity.
  - apply Forall_forall. intros c Hc. specialize (Ip c Hc). lia.
  - apply Forall_app. split; [apply Forall_forall; intros q Hq; specialize (Ic q Hq); lia|].
    constructor; [simpl; lia|constructor].
  - apply Forall_app. split; [apply Forall_forall; intros w Hw; specialize (Iv w Hw); lia|].
    constructor; [simpl; lia|constructor].
  - rewrite map_app. simpl. apply NoDup_snoc; [exact (vote_ids_unique s I)|].
    intros H. apply has_vote_in in H. rewrite (fresh_vote s _ I) in H by lia. discriminate.
  - apply Forall_app. split; [exact (votes_on_posts s I)|].
    constructor; [|constructor]. simpl. rewrite (fresh_post_id s _ I (le_n _)). discriminate.
  - apply Forall_app. split; [|constructor; [reflexivity|constructor]].
    apply Forall_forall. intros w Hw. rewrite has_comment_app. simpl.
    replace (nextId s =? vote_item w)%nat with false
      by (symmetry; apply Nat.eqb_neq; specialize (Iv w Hw); lia).
    rewrite orb_false_r. pose proof (votes_on_comments s I) as K. use_forall K w Hw. exact K.
  - apply Forall_forall. intros q Hq. rewrite has_comment_app. simpl.
    replace (nextId s =? post_id q)%nat with false
      by (symmetry; apply Nat.eqb_neq; specialize (Ip q Hq); lia).
    rewrite orb_false_r. pose proof (ids_disjoint s I) as K. use_forall K q Hq. exact K.
  - apply Forall_app. split; [exact V|]. constructor; [simpl; auto|constructor].
Qed.

(** ** Consistency is preserved: creation *)

Lemma post_create_consistent s u e t c m :
  consistent s -> consistent (snd (run (post_create u e t c m) s)).
Proof.
  intros C. destruct e as [|x e]; [|exact C].
  destruct (connected s) eqn:Hc.
  - destruct (find (String.eqb m) (communities s)) as [d|] eqn:F.
    + rewrite post_create_run; [|exact Hc|apply C|congruence].
      apply post_created_consistent, C.
    + unfold post_create, await, catch_500. online Hc. rewrite F. exact C.
  - unfold post_create, await, catch_500. offline Hc. exact C.
Qed.

Lemma comment_create_consistent s u e i c :
  consistent s -> consistent (snd (run (comment_create u e i c) s)).
Proof.
  intros C. destruct e as [|x e]; [|exact C].
  destruct i as [i|]; [|exact C].
  destruct (connected s) eqn:Hc.
  - destruct (find (fun q => (post_id q =? i)%nat) (posts s)) as [p|] eqn:F.
    + rewrite (comment_create_run s u i p c Hc); [|apply C|exact F].
      apply comment_created_consistent, C.
    + unfold comment_create, await, catch_404. online Hc. rewrite F. exact C.
  - unfold comment_create, await, catch_404. offline Hc. exact C.
Qed.

(** ** Consistency is preserved: deletion *)

Lemma has_post_incl j ps ps' : incl ps ps' -> has_post j ps = true -> has_post j ps' = true.
Proof.
  unfold has_post. intros H E. apply existsb_exists in E. destruct E as [p [Hp E]].
  apply existsb_exists. exists p. split; [apply H, Hp|exact E].
Qed.

Lemma has_comment_incl j cs cs' :
  incl cs cs' -> has_comment j cs = true -> has_comment j cs' = true.
Proof.
  unfold has_comment. intros H E. apply existsb_exists in E. destruct E as [p [Hp E]].
  apply existsb_exists. exists p. split; [apply H, Hp|exact E].
Qed.

Lemma NoDup_map_filter {A B} (f : A -> B) (P : A -> bool) (l : list A) :
  NoDup (map f l) -> NoDup (map f (filter P l)).
Proof.
  induction l as [|a l IH]; simpl; intros N; [exact N|].
  inversion N as [|x l' Hn N']; subst. destruct (P a); simpl; [|apply IH, N'].
  constructor; [|apply IH, N']. intros H. apply Hn.
  apply in_map_iff in H. destruct H as [b [E Hb]]. apply filter_In in Hb.
  rewrite <- E. apply in_map. tauto.
Qed.

(** Items and the votes on item [i] of kind [k] are taken away. *)
Lemma pruned_consistent s ps cs i k :
  consistent s -> incl ps (posts s) -> incl cs (comments s) ->
  (k = post_t -> forall q, In q ps -> post_id q <> i) ->
  (k = comment_t -> forall q, In q cs -> comment_id q <> i) ->
  consistent (mkState ps cs (filter (fun v => negb (vote_on i k v)) (votes s))
                      (communities s) (nextId s) (clock s) (connected s)).
Proof.
  intros [[Sp Sc] [I V]] Hps Hcs Np Nc.
  pose proof (posts_issued s I) as Ip. pose proof (comments_issued s I) as Ic.
  pose proof (votes_issued s I) as Iv. pose proof (votes_on_posts s I) as Kp.
  pose proof (votes_on_comments s I) as Kc. pose proof (ids_disjoint s I) as D.
  rewrite Forall_forall in Sp, Sc, Ip, Ic, Iv, Kp, Kc, D.
  split; [split|split; [constructor|]]; simpl.
  - apply Forall_forall. intros q Hq. rewrite vote_sum_deleteMany.
    destruct ((post_id q =? i)%nat && ItemType_eqb post_t k) eqn:E; [|apply Sp, Hps, Hq].
    apply andb_true_iff in E. destruct E as [E1 E2]. apply Nat.eqb_eq in E1.
    destruct k; [|discriminate]. exfalso. apply (Np eq_refl q Hq E1).
  - apply Forall_forall. intros q Hq. rewrite vote_sum_deleteMany.
    destruct ((comment_id q =? i)%nat && ItemType_eqb comment_t k) eqn:E; [|apply Sc, Hcs, Hq].
    apply andb_true_iff in E. destruct E as [E1 E2]. apply Nat.eqb_eq in E1.
    destruct k; [discriminate|]. exfalso. apply (Nc eq_refl q Hq E1).
  - apply Forall_forall. intros q Hq. apply Ip, Hps, Hq.
  - apply Forall_forall. intros q Hq. apply Ic, Hcs, Hq.
  - apply Forall_forall. intros w Hw. apply filter_In in Hw. apply Iv. tauto.
  - apply NoDup_map_filter, (vote_ids_unique s I).
  - apply Forall_forall. intros w Hw H. apply filter_In in Hw.
    apply Kp; [tauto|]. eapply has_post_incl; eassumption.
  - apply Forall_forall. intros w Hw H. apply filter_In in Hw.
    apply Kc; [tauto|]. eapply has_comment_incl; eassumption.
  - apply Forall_forall. intros q Hq.
    destruct (has_comment (post_id q) cs) eqn:E; [|reflexivity].
    apply (has_comment_incl _ _ _ Hcs) in E. rewrite (D q (Hps q Hq)) in E. discriminate.
  - apply values_ok_filter, V.
Qed.

Lemma post_delete_consistent s u i : consistent s -> consistent (snd (run (post_delete u i) s)).
Proof.
  intros C. unfold post_delete, await, catch_404. destruct i as [i|]; [|exact C].
  destruct (connected s) eqn:Hc; [|offline Hc; exact C].
  online Hc. destruct (find _ (posts s)) as [p|] eqn:F; online Hc; [|exact C].
  destruct (post_author p =? u)%nat; online Hc; [|exact C].
  apply (pruned_consistent s _ _ (post_id p) post_t C).
  - apply incl_filter.
  - apply incl_filter.
  - intros _ q Hq. apply filter_In in Hq. destruct Hq as [_ Hq].
    apply negb_true_iff, Nat.eqb_neq in Hq. exact Hq.
  - discriminate.
Qed.

Lemma comment_delete_consistent s u i :
  consistent s -> consistent (snd (run (comment_delete u i) s)).
Proof.
  intros C. unfold comment_delete, await, catch_404. destruct i as [i|]; [|exact C].
  destruct (connected s) eqn:Hc; [|offline Hc; exact C].
  online Hc. destruct (find _ (comments s)) as [p|] eqn:F; online Hc; [|exact C].
  destruct (comment_author p =? u)%nat; online Hc; [|exact C].
  apply (pruned_consistent s _ _ (comment_id p) comment_t C).
  - apply incl_refl.
  - apply incl_filter.
  - discriminate.
  - intros _ q Hq. apply filter_In in Hq. destruct Hq as [_ Hq].
    apply negb_true_iff, Nat.eqb_neq in Hq. exact Hq.
Qed.

(** ** Consistency is preserved: edits and outside events *)

Lemma post_key_ids ps ps' : map post_key ps = map post_key ps' -> map post_id ps = map post_id ps'.
Proof.
  intros E. apply (f_equal (map fst)) in E. rewrite !map_map in E. exact E.
Qed.

Lemma comment_key_ids cs cs' :
  map comment_key cs = map comment_key cs' -> map comment_id cs = map comment_id cs'.
Proof.
  intros E. apply (f_equal (map fst)) in E. rewrite !map_map in E. exact E.
Qed.

(** Consistency only looks at the ids and scores of the items, the votes and
    the id counter. *)
Lemma consistent_same_items s s' :
  consistent s ->
  map post_key (posts s') = map post_key (posts s) ->
  map comment_key (comments s') = map comment_key (comments s) ->
  votes s' = votes s -> nextId s' = nextId s ->
  consistent s'.
Proof.
  intros [[Sp Sc] [I V]] Ep Ec Ev En.
  pose proof (post_key_ids _ _ Ep) as Ip'. pose proof (comment_key_ids _ _ Ec) as Ic'.
  pose proof (posts_issued s I) as Ip. pose proof (comments_issued s I) as Ic.
  pose proof (votes_on_posts s I) as Kp.
  pose proof (votes_on_comments s I) as Kc. pose proof (ids_disjoint s I) as D.
  rewrite Forall_forall in Sp, Sc, Ip, Ic, Kp, Kc, D.
  split; [split|split; [constructor|]]; rewrite ?Ev, ?En.
  - apply Forall_forall. intros q Hq.
    destruct (in_same_image post_key _ _ q Ep Hq) as [q0 [H0 E]].
    injection E as E1 E2. rewrite <- E1, <- E2. apply Sp, H0.
  - apply Forall_forall. intros q Hq.
    destruct (in_same_image comment_key _ _ q Ec Hq) as [q0 [H0 E]].
    injection E as E1 E2. rewrite <- E1, <- E2. apply Sc, H0.
  - apply Forall_forall. intros q Hq.
    destruct (in_same_image post_id _ _ q Ip' Hq) as [q0 [H0 <-]]. apply Ip, H0.
  - apply Forall_forall. intros q Hq.
    destruct (in_same_image comment_id _ _ q Ic' Hq) as [q0 [H0 <-]]. apply Ic, H0.
  - exact (votes_issued s I).
  - exact (vote_ids_unique s I).
  - apply Forall_forall. intros w Hw. rewrite (has_post_same_ids _ _ _ Ip'). apply Kp, Hw.
  - apply Forall_forall. intros w Hw. rewrite (has_comment_same_ids _ _ _ Ic'). apply Kc, Hw.
  - apply Forall_forall. intros q Hq.
    destruct (in_same_image post_id _ _ q Ip' Hq) as [q0 [H0 <-]].
    rewrite (has_comment_same_ids _ _ _ Ic'). apply D, H0.
  - exact V.
Qed.

Lemma post_update_consistent s u e i t c :
  consistent s -> consistent (snd (run (post_update u e i t c) s)).
Proof.
  intros C. destruct e as [|x e]; [|exact C].
  unfold post_update, await, catch_404. destruct i as [i|]; [|exact C].
  destruct (connected s) eqn:Hc; [|offline Hc; exact C].
  online Hc. destruct (find _ (posts s)) as [p|] eqn:F; online Hc; [|exact C].
  destruct (post_author p =? u)%nat; online Hc; [|exact C].
  destruct (has_post (post_id p) (posts s)); simpl; [|exact C].
  destruct (post_modified p (post_with_edit p t c)); simpl; [|exact C].
  apply (consistent_same_items s); try reflexivity; [exact C|]. simpl.
  rewrite map_map. apply map_ext. intros q. unfold post_key, post_write. simpl.
  destruct (post_id q =? post_id p)%nat; [|reflexivity]. simpl.
  unfold pick. rewrite Z.eqb_refl. reflexivity.
Qed.

Lemma comment_update_consistent s u e i c :
  consistent s -> consistent (snd (run (comment_update u e i c) s)).
Proof.
  intros C. destruct e as [|x e]; [|exact C].
  unfold comment_update, await, catch_404. destruct i as [i|]; [|exact C].
  destruct (connected s) eqn:Hc; [|offline Hc; exact C].
  online Hc. destruct (find _ (comments s)) as [p|] eqn:F; online Hc; [|exact C].
  destruct (comment_author p =? u)%nat; online Hc; [|exact C].
  destruct (has_comment (comment_id p) (comments s)); simpl; [|exact C].
  destruct (comment_modified p (comment_with_edit p c)); simpl; [|exact C].
  apply (consistent_same_items s); try reflexivity; [exact C|]. simpl.
  rewrite map_map. apply map_ext. intros q. unfold comment_key, comment_write. simpl.
  destruct (comment_id q =? comment_id p)%nat; [|reflexivity]. simpl.
  unfold pick. rewrite Z.eqb_refl. reflexivity.
Qed.

(** ** Every request, every history *)

Lemma handler_consistent r s : consistent s -> consistent (snd (run (handler r) s)).
Proof.
  intros C. destruct r; cbn [handler].
  - apply post_create_consistent, C.
  - apply post_update_consistent, C.
  - apply post_delete_consistent, C.
  - apply post_vote_consistent, C.
  - apply comment_create_consistent, C.
  - apply comment_update_consistent, C.
  - apply comment_delete_consistent, C.
  - apply comment_vote_consistent, C.
Qed.

Lemma serve_consistent ev s : consistent s -> consistent (serve ev s).
Proof.
  destruct ev as [r|e]; simpl; [apply handler_consistent|].
  intros C. apply (consistent_same_items s); destruct e; try reflexivity; exact C.
Qed.

Lemma serve_all_consistent h s : consistent s -> consistent (serve_all h s).
Proof.
  revert s. induction h as [|ev h IH]; intros s C; simpl; [exact C|].
  apply IH, serve_consistent, C.
Qed.

Lemma boot_consistent names id0 t0 : consistent (boot names id0 t0).
Proof. repeat constructor. Qed.

(** ** Ids of Vote records stay unique under every schedule *)

Lemma map_vote_id_write d vs : map vote_id (map (vote_write d) vs) = map vote_id vs.
Proof.
  rewrite map_map. apply map_ext. intros w. unfold vote_write.
  destruct (vote_id w =? vote_id d)%nat; reflexivity.
Qed.

Lemma sem_vote_ids_unique {X} (o : eff X) (s : State) :
  NoDup (map vote_id (votes s)) -> NoDup (map vote_id (votes (snd (sem o s)))).
Proof.
  intros N. destruct o; simpl; unfold online;
    repeat match goal with
           | |- context [match ?x with _ => _ end] => destruct x eqn:?; simpl
           end; auto using NoDup_map_filter.
  - rewrite map_app. simpl. apply NoDup_snoc; [exact N|].
    intros H. apply has_vote_in in H. congruence.
  - rewrite map_vote_id_write. exact N.
Qed.

Lemma exec_vote_ids_unique names id0 t0 schedule :
  NoDup (map vote_id (votes (store (exec schedule (mkServer (boot names id0 t0) []))))).
Proof.
  apply (exec_preserves (fun s => NoDup (map vote_id (votes s)))).
  - intros X o s. apply sem_vote_ids_unique.
  - intros [] s H; exact H.
  - constructor.
Qed.

(** ** What a deletion removes *)

Lemma filter_twice_none {A} (P : A -> bool) (l : list A) :
  filter P (filter (fun a => negb (P a)) l) = [].
Proof.
  induction l as [|a l IH]; simpl; [reflexivity|].
  destruct (P a) eqn:E; simpl; [exact IH|]. rewrite E. exact IH.
Qed.

(** A deletion that answers 200 leaves no Vote record on the deleted item,
    and the item is gone. *)
Lemma post_delete_clears_votes s u (i : ObjectId) :
  fst (run (post_delete u (Some i)) s) = json 200 (Message "Post deleted") ->
  filter (vote_on i post_t) (votes (snd (run (post_delete u (Some i)) s))) = [] /\
  has_post i (posts (snd (run (post_delete u (Some i)) s))) = false.
Proof.
  unfold post_delete, await, catch_404. destruct (connected s) eqn:Hc.
  - online Hc. destruct (find _ (posts s)) as [p|] eqn:F; online Hc; [|discriminate].
    apply find_post_id in F. destruct F as [_ [<- _]].
    destruct (post_author p =? u)%nat; online Hc; [|discriminate].
    intros _. split; [apply filter_twice_none|].
    unfold has_post. destruct (existsb _ _) eqn:E; [|reflexivity].
    apply existsb_exists in E. destruct E as [q [Hq E]]. apply filter_In in Hq.
    destruct Hq as [_ Hq]. rewrite E in Hq. discriminate.
  - offline Hc. discriminate.
Qed.

Lemma comment_delete_clears_votes s u (i : ObjectId) :
  fst (run (comment_delete u (Some i)) s) = json 200 (Message "Comment deleted") ->
  filter (vote_on i comment_t) (votes (snd (run (comment_delete u (Some i)) s))) = [] /\
  has_comment i (comments (snd (run (comment_delete u (Some i)) s))) = false.
Proof.
  unfold comment_delete, await, catch_404. destruct (connected s) eqn:Hc.
  - online Hc. destruct (find _ (comments s)) as [p|] eqn:F; online Hc; [|discriminate].
    apply find_comment_id in F. destruct F as [_ [<- _]].
    destruct (comment_author p =? u)%nat; online Hc; [|discriminate].
    intros _. split; [apply filter_twice_none|].
    unfold has_comment. destruct (existsb _ _) eqn:E; [|reflexivity].
    apply existsb_exists in E. destruct E as [q [Hq E]]. apply filter_In in Hq.
    destruct Hq as [_ Hq]. rewrite E in Hq. discriminate.
  - offline Hc. discriminate.
Qed.

(** ** The score invariant *)

(** C1, as amended.  Starting from an empty database, after any history of
    requests (creations, votes, deletions, edits) and outside events, each
    request served to completion before the next one starts and with the
    connection as it is when the request starts, the stored score of every
    post and of every comment equals the sum of the values of the Vote
    records that reference it by id and kind. *)
Theorem score_is_sum_of_votes (names : list string) (id0 : ObjectId) (t0 : Time)
    (h : list event) :
  scores_ok (serve_all h (boot names id0 t0)).
Proof. apply serve_all_consistent, boot_consistent. Qed.

(** C1, as stated, fails: the connection drops while the upvote of user 8
    on post 0 (score 1, one vote) is handled, after the Vote record is
    inserted and before the score is saved; the request is answered 500.
    The upvote of user 9 that follows is answered 200 with score 2, and the
    post is left with score 2 and three votes of +1. *)
Lemma score_behind_after_failed_save :
  let c := exec vote_cut_short (mkServer example_post []) in
  responded c 0 = Some (json 500 (Message "Server error")) /\
  responded c 1 = Some (json 200 (Votes 2)) /\
  map vote_value (filter (vote_on 0 post_t) (votes (store c))) = [1; 1; 1] /\
  score (store c) 0 post_t = Some 2 /\
  score (store c) 0 post_t <> Some (vote_sum (votes (store c)) 0 post_t).
Proof. vm_compute. repeat split; try reflexivity. discriminate. Qed.

(** ** The transition table *)



Lemma includes_valid vt : vt = -1 \/ vt = 0 \/ vt = 1 -> includes [1; 0; -1] (JNum vt) = true.
Proof. intros [-> | [-> | ->]]; reflexivity. Qed.



(** ** Creation seeds the score with the author's vote *)

Lemma find_snoc {A} (f : A -> bool) (l : list A) (a : A) :
  existsb f l = false -> find f (l ++ [a]) = find f [a].
Proof.
  induction l as [|b l IH]; simpl; [reflexivity|].
  intros H. apply orb_false_iff in H. destruct H as [Hb H]. rewrite Hb. apply IH, H.
Qed.

Lemma no_votes_on_fresh s n k :
  ids_ok s -> (nextId s <= n)%nat -> filter (vote_on n k) (votes s) = [].
Proof.
  intros I Hn. apply filter_none. destruct (existsb _ (votes s)) eqn:E; [|reflexivity].
  apply existsb_exists in E. destruct E as [v [Hv E]]. apply vote_on_true in E.
  pose proof (votes_issued s I) as F. rewrite Forall_forall in F. specialize (F v Hv). lia.
Qed.

(** C6. A creation of a post in a known community, or of a comment on a
    stored post, by user [user] answers 200 and leaves the new item (whose
    id is the next id of the generator) with score 1 and with exactly one
    Vote record on it: the author's own, of value +1.  The creation of a
    post asks for no stored post: it holds for the first post of a store. *)
Theorem creation_self_upvote (s : State) (user : ObjectId)
    (title content community text : string) (i : ObjectId) :
  connected s = true -> ids_ok s ->
  let n := nextId s in
  let own k := mkVote (S n) user n k 1 (clock s) in
  let r := run (post_create user [] title content community) s in
  let r' := run (comment_create user [] (Some i) text) s in
  (find (String.eqb community) (communities s) <> None ->
   status (fst r) = 200%nat /\
   score (snd r) n post_t = Some 1 /\
   filter (vote_on n post_t) (votes (snd r)) = [own post_t]) /\
  (resolves s (Some i) post_t = true ->
   status (fst r') = 200%nat /\
   score (snd r') n comment_t = Some 1 /\
   filter (vote_on n comment_t) (votes (snd r')) = [own comment_t]).
Proof.
  intros Hc I. cbv zeta. split.
  - intros Hm. rewrite (post_create_run s user title content community Hc I Hm).
    cbn [fst snd status]. split; [reflexivity|split].
    + unfold score. cbn [posts]. rewrite find_snoc by apply (fresh_post_id s _ I (le_n _)).
      simpl. rewrite Nat.eqb_refl. reflexivity.
    + cbn [votes]. rewrite filter_app, (no_votes_on_fresh s _ _ I (le_n _)).
      simpl. unfold vote_on. simpl. rewrite Nat.eqb_refl. reflexivity.
  - intros Hp. unfold resolves in Hp.
    destruct (find (fun p => (post_id p =? i)%nat) (posts s)) as [p|] eqn:F; [|discriminate].
    rewrite (comment_create_run s user i p text Hc I F).
    cbn [fst snd status]. split; [reflexivity|split].
    + unfold score. cbn [comments].
      rewrite find_snoc by apply (fresh_comment_id s _ I (le_n _)).
      simpl. rewrite Nat.eqb_refl. reflexivity.
    + cbn [votes]. rewrite filter_app, (no_votes_on_fresh s _ _ I (le_n _)).
      simpl. unfold vote_on. simpl. rewrite Nat.eqb_refl. reflexivity.
Qed.

Lemma creation_self_upvote_witness :
  let s0 := boot ["m"] 0 0 in
  connected s0 = true /\ ids_ok s0 /\
  find (String.eqb "m") (communities s0) <> None /\
  score (snd (run (post_create 7 [] "t" "x" "m") s0)) 0 post_t = Some 1 /\
  filter (vote_on 0 post_t) (votes (snd (run (post_create 7 [] "t" "x" "m") s0)))
  = [mkVote 1 7 0 post_t 1 0] /\
  connected example_post = true /\ ids_ok example_post /\
  resolves example_post (Some 0%nat) post_t = true /\
  score (snd (run (comment_create 8 [] (Some 0%nat) "hi") example_post)) 2 comment_t = Some 1 /\
  filter (vote_on 2 comment_t)
         (votes (snd (run (comment_create 8 [] (Some 0%nat) "hi") example_post)))
  = [mkVote 3 8 2 comment_t 1 0].
Proof.
  assert (I0 : ids_ok (boot ["m"] 0 0)) by apply (boot_consistent ["m"] 0%nat 0%nat).
  assert (I : ids_ok example_post) by concrete.
  assert (M : find (String.eqb "m") (communities (boot ["m"] 0 0)) <> None)
    by (vm_compute; discriminate).
  pose proof (proj1 (creation_self_upvote (boot ["m"] 0 0) 7 "t" "x" "m" "" 0%nat eq_refl I0) M)
    as [_ [H1 H2]].
  pose proof (proj2 (creation_self_upvote example_post 8 "u" "y" "m" "hi" 0%nat eq_refl I)
                eq_refl) as [_ [H3 H4]].
  split; [reflexivity|]. split; [exact I0|]. split; [exact M|].
  split; [exact H1|]. split; [exact H2|].
  split; [reflexivity|]. split; [exact I|]. split; [reflexivity|].
  split; [exact H3|exact H4].
Defined.

(** ** Deleting a post *)

(** C3, at the failing input: user 8's comment 2 on post 0 carries the Vote
    record 3; after user 7 has deleted post 0 (answer 200), the comment is
    gone and the Vote record on it is still in the store. *)
Theorem post_delete_orphans_comment_votes :
  In (mkComment 2 "hi" 8 0 1 false 0) (comments example_thread) /\
  In (mkVote 3 8 2 comment_t 1 0) (votes example_thread) /\
  fst (run (post_delete 7 (Some 0%nat)) example_thread) = json 200 (Message "Post deleted") /\
  comments (snd (run (post_delete 7 (Some 0%nat)) example_thread)) = [] /\
  votes (snd (run (post_delete 7 (Some 0%nat)) example_thread)) = [mkVote 3 8 2 comment_t 1 0].
Proof. vm_compute. repeat split; auto. Qed.

(** ** Without concurrency control *)

(** C4, as amended.  When a vote handler has found no vote of the user and,
    by the time of its insert, a Vote record of the same (user, item) is in
    the store, the insert is rejected with the duplicate-key error and the
    handler does not retry: it answers 500 "Server error", and nothing but
    the generated id is used up. *)
Theorem duplicate_vote_not_retried (s : State) (u : ObjectId) (vt : Z) (p : Post) (c : Comment) :
  connected s = true -> vt = -1 \/ vt = 1 ->
  existsb (same_user_item u (post_id p)) (votes s) = true ->
  existsb (same_user_item u (comment_id c)) (votes s) = true ->
  let s1 := set_nextId s (S (nextId s)) in
  (fst (sem (Vote_insert (mkVote (nextId s) u (post_id p) post_t vt (clock s))) s1)
   = Err DuplicateKey /\
   run (post_vote_apply u vt p None) s = (json 500 (Message "Server error"), s1)) /\
  (fst (sem (Vote_insert (mkVote (nextId s) u (comment_id c) comment_t vt (clock s))) s1)
   = Err DuplicateKey /\
   run (comment_vote_apply u vt c None) s = (json 500 (Message "Server error"), s1)).
Proof.
  intros Hc Hvt Hp Hcm. cbv zeta.
  assert (E0 : (vt =? 0) = false) by lia.
  assert (En : VoteSchema_value_enum vt = true) by (unfold VoteSchema_value_enum; lia).
  unfold post_vote_apply, comment_vote_apply, await, catch_404. simpl.
  repeat (online Hc; rewrite ?E0, ?En, ?Hp, ?Hcm).
  destruct (has_vote (nextId s) (votes s)); simpl; repeat split.
Qed.

Lemma duplicate_vote_not_retried_witness :
  connected example_post = true /\
  existsb (same_user_item 7 0) (votes example_post) = true /\
  run (post_vote_apply 7 1 (mkPost 0 "t" "x" 7 "m" 1 false 0) None) example_post
  = (json 500 (Message "Server error"), set_nextId example_post 3).
Proof.
  split; [reflexivity|]. split; [reflexivity|].
  exact (proj2 (proj1 (duplicate_vote_not_retried example_post 7 1
                         (mkPost 0 "t" "x" 7 "m" 1 false 0)
                         (mkComment 0 "" 7 0 0 false 0)
                         eq_refl (or_intror eq_refl) eq_refl eq_refl))).
Defined.



(** C4, as stated, fails: the second of two simultaneous identical upvotes
    reaches its insert after the first has inserted; the insert is rejected
    with the duplicate-key error and the caller is answered 500. *)
Lemma duplicate_vote_is_surfaced :
  let c := exec same_voter_twice (mkServer example_post []) in
  responded c 0 = Some (json 200 (Votes 2)) /\
  at_vote_insert (pending c 1) = true /\
  next_error (pending c 1) (store c) = Some DuplicateKey /\
  responded (act (Resume 1) c) 1 = Some (json 500 (Message "Server error")) /\
  votes (store (act (Resume 1) c)) = votes (store c).
Proof. vm_compute. repeat split; reflexivity. Qed.




(** ** Scenarios of the spec, by evaluation *)

(** Answers of a list of requests served in turn. *)
Example scenario_B :
  let r1 := run (post_vote 8 (Some 0%nat) (JNum 1)) example_neutral in
  let r2 := run (post_vote 9 (Some 0%nat) (JNum (-1))) (snd r1) in
  let r3 := run (post_vote 8 (Some 0%nat) (JNum (-1))) (snd r2) in
  let r4 := run (post_vote 8 (Some 0%nat) (JNum 0)) (snd r3) in
  map (fun r => payload (fst r)) [r1; r2; r3; r4] = [Votes 1; Votes 0; Votes (-2); Votes (-1)].
Proof. reflexivity. Qed.

Example round_trip :
  let up := POST_posts_id_vote 8 (Some 0%nat) (JNum 1) in
  let retract := POST_posts_id_vote 8 (Some 0%nat) (JNum 0) in
  score (serve_all [Call up; Call retract; Call up] example_post) 0 post_t
  = score (serve_all [Call up] example_post) 0 post_t.
Proof. reflexivity. Qed.

Example same_vote_twice_in_turn :
  let up := POST_posts_id_vote 8 (Some 0%nat) (JNum 1) in
  let s1 := serve_all [Call up] example_post in
  fst (run (handler up) s1) = json 200 (Votes 2) /\
  votes (snd (run (handler up) s1)) = votes s1.
Proof. split; reflexivity. Qed.

Example scenario_C :
  run (post_vote 8 (Some 0%nat) (JNum 2)) example_post = (InvalidVoteType, example_post).
Proof. reflexivity. Qed.

Example scenario_D :
  let s := serve_all [Call (DELETE_posts_id 7 (Some 0%nat))] example_post in
  run (post_vote 8 (Some 0%nat) (JNum 1)) s = (ItemNotFound post_t, s).
Proof. reflexivity. Qed.

(** * The other routes, and the routes together *)

(** ** Lists *)

(** [find] through a map that keeps the key. *)
Lemma find_map_keep {A} (P : A -> bool) (f : A -> A) (l : list A) :
  (forall a, P (f a) = P a) -> find P (map f l) = option_map f (find P l).
Proof.
  intros H. induction l as [|a l IH]; simpl; [reflexivity|].
  rewrite H. destruct (P a); [reflexivity|exact IH].
Qed.


Lemma find_snoc_match {A} (P : A -> bool) (l : list A) (a : A) :
  find P l = None -> P a = true -> find P (l ++ [a]) = Some a.
Proof.
  intros F Pa. rewrite find_snoc by (apply find_none_existsb, F). simpl. rewrite Pa. reflexivity.
Qed.


Lemma sumZ_snoc (l : list Z) (z : Z) : sumZ (l ++ [z]) = sumZ l + z.
Proof. induction l as [|a l IH]; simpl; [lia|]. rewrite IH. lia. Qed.

Lemma sumZ_filter_split {A} (f : A -> Z) (P : A -> bool) (l : list A) :
  sumZ (map f l) = sumZ (map f (filter P l)) + sumZ (map f (filter (fun a => negb (P a)) l)).
Proof.
  induction l as [|a l IH]; simpl; [reflexivity|].
  destruct (P a); simpl; lia.
Qed.

Lemma filter_comm {A} (P Q : A -> bool) (l : list A) :
  filter P (filter Q l) = filter Q (filter P l).
Proof.
  induction l as [|a l IH]; simpl; [reflexivity|].
  destruct (P a) eqn:EP, (Q a) eqn:EQ; simpl; rewrite ?EP, ?EQ, IH; reflexivity.
Qed.

(** ** Who may edit and delete *)

(** X1. A user who is not the author of a stored post can neither edit nor
    delete it: both routes answer 401 "User not authorized" and the database
    stays as it is. *)
Theorem post_author_only (s : State) (u i : ObjectId) (p : Post) (title content : string) :
  connected s = true ->
  find (fun q => (post_id q =? i)%nat) (posts s) = Some p ->
  post_author p <> u ->
  run (post_update u [] (Some i) title content) s = (Unauthorized, s) /\
  run (post_delete u (Some i)) s = (Unauthorized, s).
Proof.
  intros Hc F Ha. apply Nat.eqb_neq in Ha.
  unfold post_update, post_delete, await, Unauthorized. online Hc. rewrite F. online Hc.
  rewrite Ha. simpl. split; reflexivity.
Qed.

Lemma post_author_only_witness :
  connected example_post = true /\
  run (post_update 8 [] (Some 0%nat) "a" "b") example_post = (Unauthorized, example_post) /\
  run (post_delete 8 (Some 0%nat)) example_post = (Unauthorized, example_post).
Proof.
  split; [reflexivity|].
  apply (post_author_only example_post 8 0%nat (mkPost 0 "t" "x" 7 "m" 1 false 0));
    [reflexivity|reflexivity|discriminate].
Defined.

(** X2. A user who is not the author of a stored comment can neither edit
    nor delete it: both routes answer 401 "User not authorized" and the
    database stays as it is. *)
Theorem comment_author_only (s : State) (u i : ObjectId) (c : Comment) (content : string) :
  connected s = true ->
  find (fun q => (comment_id q =? i)%nat) (comments s) = Some c ->
  comment_author c <> u ->
  run (comment_update u [] (Some i) content) s = (Unauthorized, s) /\
  run (comment_delete u (Some i)) s = (Unauthorized, s).
Proof.
  intros Hc F Ha. apply Nat.eqb_neq in Ha.
  unfold comment_update, comment_delete, await, Unauthorized. online Hc. rewrite F. online Hc.
  rewrite Ha. simpl. split; reflexivity.
Qed.

Lemma comment_author_only_witness :
  connected example_thread = true /\
  run (comment_update 7 [] (Some 2%nat) "a") example_thread = (Unauthorized, example_thread) /\
  run (comment_delete 7 (Some 2%nat)) example_thread = (Unauthorized, example_thread).
Proof.
  split; [reflexivity|].
  apply (comment_author_only example_thread 7 2%nat (mkComment 2 "hi" 8 0 1 false 0));
    [reflexivity|reflexivity|discriminate].
Defined.

(** ** The store is down, the target is missing *)

(** X3. While the connection to the database is down, every request of the
    posts and comments routers leaves the database as it is and is answered
    with status 400, 404 or 500, never with a success. *)
Theorem nothing_succeeds_offline (s : State) (r : request) :
  connected s = false ->
  snd (run (handler r) s) = s /\
  In (status (fst (run (handler r) s))) [400; 404; 500]%nat.
Proof.
  intros Hc. destruct r; cbn [handler];
    unfold post_create, post_update, post_delete, post_vote, comment_create,
      comment_update, comment_delete, comment_vote, await, catch_404, catch_500;
    repeat (offline Hc; try split_match); (split; [reflexivity|simpl; tauto]).
Qed.

Lemma nothing_succeeds_offline_witness :
  let s := set_connected example_post false in
  let r := POST_posts_id_vote 8 (Some 0%nat) (JNum 1) in
  connected s = false /\ snd (run (handler r) s) = s /\
  In (status (fst (run (handler r) s))) [400; 404; 500]%nat.
Proof.
  split; [reflexivity|].
  apply (nothing_succeeds_offline (set_connected example_post false)
           (POST_posts_id_vote 8 (Some 0%nat) (JNum 1))).
  reflexivity.
Defined.

(** X4. [calculateKarma] hides the failures of its reads: with the connection
    down it returns 0, and when the connection drops after the posts were
    read and before the comments are, it returns 0 as well; the scores of
    the posts already summed are dropped. *)
Theorem calculateKarma_failure (s : State) (userId : ObjectId) :
  (connected s = false -> run (calculateKarma userId) s = (0, s)) /\
  (connected s = true ->
   run (fst (step (calculateKarma userId) s)) (set_connected (snd (step (calculateKarma userId) s)) false)
   = (0, set_connected s false)).
Proof.
  split; intros Hc; unfold calculateKarma, await.
  - offline Hc. reflexivity.
  - online Hc. reflexivity.
Qed.

Lemma calculateKarma_failure_witness :
  run (calculateKarma 7) (set_connected example_post false)
  = (0, set_connected example_post false) /\
  run (fst (step (calculateKarma 7) example_post))
      (set_connected (snd (step (calculateKarma 7) example_post)) false)
  = (0, set_connected example_post false).
Proof.
  split.
  - apply (proj1 (calculateKarma_failure (set_connected example_post false) 7)). reflexivity.
  - apply (proj2 (calculateKarma_failure example_post 7)). reflexivity.
Defined.

(** X5. On a live connection, the routes other than the vote routes answer
    404 and leave the database as it is when their target is missing: edit,
    deletion and comment creation when the id does not resolve to a stored
    post ("Post not found"), edit and deletion of a comment when the id does
    not resolve to a stored comment ("Comment not found"), post creation
    when the community is unknown ("Community not found"). *)
Theorem missing_item_routes (s : State) (u : ObjectId) (id : option ObjectId)
    (title content community : string) :
  connected s = true ->
  (resolves s id post_t = false ->
   run (post_update u [] id title content) s = (ItemNotFound post_t, s) /\
   run (post_delete u id) s = (ItemNotFound post_t, s) /\
   run (comment_create u [] id content) s = (ItemNotFound post_t, s)) /\
  (resolves s id comment_t = false ->
   run (comment_update u [] id content) s = (ItemNotFound comment_t, s) /\
   run (comment_delete u id) s = (ItemNotFound comment_t, s)) /\
  (find (String.eqb community) (communities s) = None ->
   run (post_create u [] title content community) s
   = (json 404 (Message "Community not found"), s)).
Proof.
  intros Hc. unfold resolves, ItemNotFound.
  split; [|split]; intros R;
    unfold post_update, post_delete, comment_create, comment_update, comment_delete,
      post_create, await, catch_404, catch_500.
  - destruct id as [i|]; online Hc; [|repeat split].
    destruct (find _ (posts s)); [discriminate|]. repeat split.
  - destruct id as [i|]; online Hc; [|repeat split].
    destruct (find _ (comments s)); [discriminate|]. repeat split.
  - online Hc. rewrite R. reflexivity.
Qed.

Lemma missing_item_routes_witness :
  connected example_post = true /\
  resolves example_post (Some 5%nat) post_t = false /\
  run (post_delete 7 (Some 5%nat)) example_post = (ItemNotFound post_t, example_post) /\
  resolves example_post (Some 0%nat) comment_t = false /\
  run (comment_delete 7 (Some 0%nat)) example_post = (ItemNotFound comment_t, example_post) /\
  find (String.eqb "n") (communities example_post) = None /\
  run (post_create 7 [] "t" "x" "n") example_post
  = (json 404 (Message "Community not found"), example_post).
Proof.
  pose proof (missing_item_routes example_post 7 (Some 5%nat) "t" "x" "n" eq_refl)
    as [P [_ M]].
  pose proof (missing_item_routes example_post 7 (Some 0%nat) "t" "x" "n" eq_refl)
    as [_ [C _]].
  split; [reflexivity|]. split; [reflexivity|]. split; [apply (P eq_refl)|].
  split; [reflexivity|]. split; [apply (C eq_refl)|].
  split; [reflexivity|apply (M eq_refl)].
Defined.

(** ** Edits *)

Lemma post_write_id l d q : post_id (post_write l d q) = post_id q.
Proof. unfold post_write. destruct (post_id q =? post_id d)%nat; reflexivity. Qed.

Lemma comment_write_id l d q : comment_id (comment_write l d q) = comment_id q.
Proof. unfold comment_write. destruct (comment_id q =? comment_id d)%nat; reflexivity. Qed.

Lemma post_write_edit p title content :
  post_write p (post_with_edit p title content) p = post_with_edit p title content.
Proof.
  unfold post_write, pick. simpl. rewrite Nat.eqb_refl, Z.eqb_refl.
  destruct (post_title p =? title)%string eqn:E1;
    destruct (post_content p =? content)%string eqn:E2;
    destruct (post_isEdited p) eqn:E3; simpl;
    try apply String.eqb_eq in E1; try apply String.eqb_eq in E2;
    unfold post_with_edit; rewrite ?E3; subst; reflexivity.
Qed.

Lemma post_write_other l d q : post_id q <> post_id d -> post_write l d q = q.
Proof. intros H. apply Nat.eqb_neq in H. unfold post_write. rewrite H. reflexivity. Qed.

Lemma comment_write_edit c content :
  comment_write c (comment_with_edit c content) c = comment_with_edit c content.
Proof.
  unfold comment_write, pick. simpl. rewrite Nat.eqb_refl, Z.eqb_refl.
  destruct (comment_content c =? content)%string eqn:E1;
    destruct (comment_isEdited c) eqn:E3; simpl;
    try apply String.eqb_eq in E1;
    unfold comment_with_edit; rewrite ?E3; subst; reflexivity.
Qed.

Lemma comment_write_other l d q : comment_id q <> comment_id d -> comment_write l d q = q.
Proof. intros H. apply Nat.eqb_neq in H. unfold comment_write. rewrite H. reflexivity. Qed.

Lemma same_but_post_refl i ps : same_but_post i ps ps.
Proof. induction ps; constructor; auto. Qed.

Lemma same_but_post_write i l d ps :
  post_id d = i -> same_but_post i ps (map (post_write l d) ps).
Proof.
  intros E. induction ps as [|q ps IH]; simpl; constructor; [|exact IH].
  split; [apply post_write_id|]. intros H. apply post_write_other. congruence.
Qed.

Lemma same_but_comment_refl i cs : same_but_comment i cs cs.
Proof. induction cs; constructor; auto. Qed.

Lemma same_but_comment_write i l d cs :
  comment_id d = i -> same_but_comment i cs (map (comment_write l d) cs).
Proof.
  intros E. induction cs as [|q cs IH]; simpl; constructor; [|exact IH].
  split; [apply comment_write_id|]. intros H. apply comment_write_other. congruence.
Qed.

(** X6. An edit of a stored post by its author answers 200 with the post as
    edited: the new title and content, [isEdited] set, every other field as
    it was.  Afterwards a lookup of the id finds that document, every other
    post is in its place unchanged, and comments and votes are untouched. *)
Theorem post_update_effect (s : State) (u i : ObjectId) (p : Post) (title content : string) :
  connected s = true ->
  find (fun q => (post_id q =? i)%nat) (posts s) = Some p ->
  post_author p = u ->
  let edited := post_with_edit p title content in
  let r := run (post_update u [] (Some i) title content) s in
  fst r = json 200 (PostJson edited) /\
  find (fun q => (post_id q =? i)%nat) (posts (snd r)) = Some edited /\
  same_but_post i (posts s) (posts (snd r)) /\
  comments (snd r) = comments s /\ votes (snd r) = votes s.
Proof.
  intros Hc F Ha. cbv zeta. pose proof (find_post_id _ _ _ F) as [Hp [Ei Hh]].
  unfold post_update, await, catch_404. online Hc. rewrite F. online Hc.
  rewrite Ha, Nat.eqb_refl. online Hc. rewrite Ei, Hh.
  destruct (post_modified p (post_with_edit p title content)) eqn:M; simpl.
  - repeat split.
    + rewrite find_map_keep by (intros a; rewrite post_write_id; reflexivity).
      rewrite F. simpl. rewrite post_write_edit. reflexivity.
    + apply same_but_post_write. exact Ei.
  - repeat split; [|apply same_but_post_refl].
    rewrite F. f_equal. unfold post_modified in M. apply negb_false_iff in M.
    rewrite !andb_true_iff in M. destruct M as [[[M1 M2] M3] _].
    apply String.eqb_eq in M1, M2. apply Bool.eqb_prop in M3. simpl in *.
    unfold post_with_edit. rewrite <- M1, <- M2, <- M3. destruct p; reflexivity.
Qed.

Lemma post_update_effect_witness :
  connected example_post = true /\
  run (post_update 7 [] (Some 0%nat) "a" "b") example_post
  = (json 200 (PostJson (mkPost 0 "a" "b" 7 "m" 1 true 0)),
     set_posts example_post [mkPost 0 "a" "b" 7 "m" 1 true 0]) /\
  same_but_post 0 (posts example_post) [mkPost 0 "a" "b" 7 "m" 1 true 0].
Proof.
  pose proof (post_update_effect example_post 7 0%nat (mkPost 0 "t" "x" 7 "m" 1 false 0)
                "a" "b" eq_refl eq_refl eq_refl) as [_ [_ [H _]]].
  split; [reflexivity|]. split; [reflexivity|exact H].
Defined.

(** X7. An edit of a stored comment by its author answers 200 with the comment
    as edited: the new content, [isEdited] set, every other field as it was.
    Afterwards a lookup of the id finds that document, every other comment
    is in its place unchanged, and posts and votes are untouched. *)
Theorem comment_update_effect (s : State) (u i : ObjectId) (c : Comment) (content : string) :
  connected s = true ->
  find (fun q => (comment_id q =? i)%nat) (comments s) = Some c ->
  comment_author c = u ->
  let edited := comment_with_edit c content in
  let r := run (comment_update u [] (Some i) content) s in
  fst r = json 200 (CommentJson edited) /\
  find (fun q => (comment_id q =? i)%nat) (comments (snd r)) = Some edited /\
  same_but_comment i (comments s) (comments (snd r)) /\
  posts (snd r) = posts s /\ votes (snd r) = votes s.
Proof.
  intros Hc F Ha. cbv zeta. pose proof (find_comment_id _ _ _ F) as [Hp [Ei Hh]].
  unfold comment_update, await, catch_404. online Hc. rewrite F. online Hc.
  rewrite Ha, Nat.eqb_refl. online Hc. rewrite Ei, Hh.
  destruct (comment_modified c (comment_with_edit c content)) eqn:M; simpl.
  - repeat split.
    + rewrite find_map_keep by (intros a; rewrite comment_write_id; reflexivity).
      rewrite F. simpl. rewrite comment_write_edit. reflexivity.
    + apply same_but_comment_write. exact Ei.
  - repeat split; [|apply same_but_comment_refl].
    rewrite F. f_equal. unfold comment_modified in M. apply negb_false_iff in M.
    rewrite !andb_true_iff in M. destruct M as [[M1 M3] _].
    apply String.eqb_eq in M1. apply Bool.eqb_prop in M3. simpl in *.
    unfold comment_with_edit. rewrite <- M1, <- M3. destruct c; reflexivity.
Qed.

Lemma comment_update_effect_witness :
  connected example_thread = true /\
  fst (run (comment_update 8 [] (Some 2%nat) "a") example_thread)
  = json 200 (CommentJson (mkComment 2 "a" 8 0 1 true 0)) /\
  votes (snd (run (comment_update 8 [] (Some 2%nat) "a") example_thread))
  = votes example_thread.
Proof.
  pose proof (comment_update_effect example_thread 8 2%nat (mkComment 2 "hi" 8 0 1 false 0)
                "a" eq_refl eq_refl eq_refl) as [H [_ [_ [_ V]]]].
  split; [reflexivity|]. split; [exact H|exact V].
Defined.

Lemma post_write_key p title content q :
  post_key (post_write p (post_with_edit p title content) q) = post_key q.
Proof.
  unfold post_write, post_key, pick.
  destruct (post_id q =? _)%nat; [|reflexivity]. simpl. rewrite Z.eqb_refl. reflexivity.
Qed.

Lemma comment_write_key c content q :
  comment_key (comment_write c (comment_with_edit c content) q) = comment_key q.
Proof.
  unfold comment_write, comment_key, pick.
  destruct (comment_id q =? _)%nat; [|reflexivity]. simpl. rewrite Z.eqb_refl. reflexivity.
Qed.

(** X8. An edit never writes a score, whatever happens between its two
    operations: resumed after its lookup in any database [s2], the edit of a
    post leaves the id and score of every post as they are in [s2], and
    comments and votes too; likewise for the edit of a comment.  A vote
    saved while an edit is in flight is therefore not overwritten by it. *)
Theorem edits_never_touch_scores (s s2 : State) (u : ObjectId) (errors : list string)
    (id : option ObjectId) (title content : string) :
  (let s' := snd (run (fst (step (post_update u errors id title content) s)) s2) in
   map post_key (posts s') = map post_key (posts s2) /\
   comments s' = comments s2 /\ votes s' = votes s2) /\
  (let s' := snd (run (fst (step (comment_update u errors id content) s)) s2) in
   posts s' = posts s2 /\
   map comment_key (comments s') = map comment_key (comments s2) /\
   votes s' = votes s2).
Proof.
  cbv zeta. unfold post_update, comment_update, await, catch_404.
  split.
  - destruct (negb (is_empty errors)); [simpl; auto|].
    cbn [step]. destruct (sem (Post_findById id) s) as [[[p|]|e] s1]; cbn [fst].
    + destruct (negb (post_author p =? u)%nat); [simpl; auto|].
      cbn [run sem]. unfold online. destruct (connected s2); [|simpl; auto].
      destruct (has_post _ _); [|simpl; auto].
      destruct (post_modified _ _); [|simpl; auto]. simpl. repeat split.
      rewrite map_map. apply map_ext. intros q. apply post_write_key.
    + simpl. auto.
    + destruct (kind_is_ObjectId e); simpl; auto.
  - destruct (negb (is_empty errors)); [simpl; auto|].
    cbn [step]. destruct (sem (Comment_findById id) s) as [[[p|]|e] s1]; cbn [fst].
    + destruct (negb (comment_author p =? u)%nat); [simpl; auto|].
      cbn [run sem]. unfold online. destruct (connected s2); [|simpl; auto].
      destruct (has_comment _ _); [|simpl; auto].
      destruct (comment_modified _ _); [|simpl; auto]. simpl. repeat split.
      rewrite map_map. apply map_ext. intros q. apply comment_write_key.
    + simpl. auto.
    + destruct (kind_is_ObjectId e); simpl; auto.
Qed.

(** ** Deletions *)

(** What a successful deletion leaves in the three collections. *)
Lemma delete_done (s : State) (u i : ObjectId) :
  (fst (run (post_delete u (Some i)) s) = json 200 (Message "Post deleted") ->
   let s' := snd (run (post_delete u (Some i)) s) in
   posts s' = filter (fun q => negb (post_id q =? i)%nat) (posts s) /\
   comments s' = filter (fun c => negb (comment_post c =? i)%nat) (comments s) /\
   votes s' = filter (fun v => negb (vote_on i post_t v)) (votes s)) /\
  (fst (run (comment_delete u (Some i)) s) = json 200 (Message "Comment deleted") ->
   let s' := snd (run (comment_delete u (Some i)) s) in
   posts s' = posts s /\
   comments s' = filter (fun c => negb (comment_id c =? i)%nat) (comments s) /\
   votes s' = filter (fun v => negb (vote_on i comment_t v)) (votes s)).
Proof.
  unfold post_delete, comment_delete, await, catch_404.
  destruct (connected s) eqn:Hc.
  - split.
    + online Hc. destruct (find _ (posts s)) as [p|] eqn:F; online Hc; [|discriminate].
      apply find_post_id in F. destruct F as [_ [<- _]].
      destruct (post_author p =? u)%nat; online Hc; [|discriminate].
      intros _. repeat split.
    + online Hc. destruct (find _ (comments s)) as [p|] eqn:F; online Hc; [|discriminate].
      apply find_comment_id in F. destruct F as [_ [<- _]].
      destruct (comment_author p =? u)%nat; online Hc; [|discriminate].
      intros _. repeat split.
  - split; offline Hc; discriminate.
Qed.

(** X9. What a deletion answered with 200 leaves: after the deletion of post
    [i], the posts other than [i], the comments on other posts and the votes
    other than those on post [i]; after the deletion of comment [i], all
    posts, the comments other than [i] and the votes other than those on
    comment [i]. *)
Theorem delete_effect (s : State) (u i : ObjectId) :
  (fst (run (post_delete u (Some i)) s) = json 200 (Message "Post deleted") ->
   let s' := snd (run (post_delete u (Some i)) s) in
   posts s' = filter (fun q => negb (post_id q =? i)%nat) (posts s) /\
   comments s' = filter (fun c => negb (comment_post c =? i)%nat) (comments s) /\
   votes s' = filter (fun v => negb (vote_on i post_t v)) (votes s)) /\
  (fst (run (comment_delete u (Some i)) s) = json 200 (Message "Comment deleted") ->
   let s' := snd (run (comment_delete u (Some i)) s) in
   posts s' = posts s /\
   comments s' = filter (fun c => negb (comment_id c =? i)%nat) (comments s) /\
   votes s' = filter (fun v => negb (vote_on i comment_t v)) (votes s)).
Proof. exact (delete_done s u i). Qed.

Lemma delete_effect_witness :
  fst (run (post_delete 7 (Some 0%nat)) example_thread) = json 200 (Message "Post deleted") /\
  votes (snd (run (post_delete 7 (Some 0%nat)) example_thread))
  = filter (fun v => negb (vote_on 0 post_t v)) (votes example_thread) /\
  fst (run (comment_delete 8 (Some 2%nat)) example_thread)
  = json 200 (Message "Comment deleted") /\
  votes (snd (run (comment_delete 8 (Some 2%nat)) example_thread))
  = filter (fun v => negb (vote_on 2 comment_t v)) (votes example_thread).
Proof.
  pose proof (proj1 (delete_effect example_thread 7 0%nat) eq_refl) as [_ [_ P]].
  pose proof (proj2 (delete_effect example_thread 8 2%nat) eq_refl) as [_ [_ C]].
  split; [reflexivity|]. split; [exact P|]. split; [reflexivity|exact C].
Defined.





(** ** Votes in sequence *)

(** A valid vote on a stored item, as one equation for both kinds. *)
Lemma applyVote_run (s : State) (u i : ObjectId) (k : ItemType) (vt x : Z) :
  connected s = true -> consistent s -> score s i k = Some x ->
  vt = -1 \/ vt = 0 \/ vt = 1 ->
  let existing := find (vote_matches u i k) (votes s) in
  let a := fst (transition (option_map vote_value existing) vt) in
  let d := snd (transition (option_map vote_value existing) vt) in
  run (applyVote u (Some i) k (JNum vt)) s
  = (json 200 (Votes (x + d)),
     after_vote s (rescored_posts k i (x + d) (posts s))
                (rescored_comments k i (x + d) (comments s)) a u i k existing).
Proof.
  intros Hc C Sx Hvt. cbv zeta.
  destruct k; unfold applyVote, post_vote, comment_vote, await;
    rewrite (includes_valid vt Hvt); unfold score in Sx; online Hc.
  - destruct (find _ (posts s)) as [p|] eqn:F; [|discriminate]. simpl in Sx.
    injection Sx as <-. pose proof (find_post_id _ _ _ F) as [Hp [Ei _]].
    online Hc. subst i. apply (post_vote_apply_table s u vt p Hc C Hp Hvt).
  - destruct (find _ (comments s)) as [p|] eqn:F; [|discriminate]. simpl in Sx.
    injection Sx as <-. pose proof (find_comment_id _ _ _ F) as [Hp [Ei _]].
    online Hc. subst i. apply (comment_vote_apply_table s u vt p Hc C Hp Hvt).
Qed.


(** With at most one record per pair, the record found is the only one that
    matches. *)
Lemma only_match u i k vs v w :
  one_per_pair vs -> In v vs -> In w vs ->
  vote_matches u i k v = true -> vote_matches u i k w = true -> w = v.
Proof.
  intros O Hv Hw Mv Mw. specialize (O u i).
  apply vote_matches_true in Mv, Mw.
  assert (Fv : In v (filter (same_user_item u i) vs)).
  { apply filter_In. split; [exact Hv|]. apply same_user_item_true. tauto. }
  assert (Fw : In w (filter (same_user_item u i) vs)).
  { apply filter_In. split; [exact Hw|]. apply same_user_item_true. tauto. }
  destruct (filter (same_user_item u i) vs) as [|z [|z' l]].
  - destruct Fv.
  - destruct Fv as [<-|[]], Fw as [<-|[]]. reflexivity.
  - simpl in O. lia.
Qed.

Lemma user_vote_after s ps cs u i k vt :
  one_per_pair (votes s) ->
  vt = -1 \/ vt = 0 \/ vt = 1 ->
  (forall v, find (vote_matches u i k) (votes s) = Some v ->
             vote_value v = -1 \/ vote_value v = 1) ->
  let existing := find (vote_matches u i k) (votes s) in
  let a := fst (transition (option_map vote_value existing) vt) in
  user_vote (after_vote s ps cs a u i k existing) u i k = if vt =? 0 then None else Some vt.
Proof.
  intros O Hvt V. cbv zeta. unfold user_vote, after_vote, transition. cbn [votes].
  destruct (find (vote_matches u i k) (votes s)) as [v|] eqn:F; cbn [option_map].
  - specialize (V v eq_refl). pose proof (find_some _ _ F) as [Hv Mv].
    destruct (vt =? 0) eqn:E0; [|destruct (vt =? vote_value v) eqn:E1]; cbn [fst perform].
    + destruct (find _ (filter _ (votes s))) as [w|] eqn:Fw; [|reflexivity].
      exfalso. apply find_some in Fw. destruct Fw as [Hw Mw]. apply filter_In in Hw.
      destruct Hw as [Hw Ne]. rewrite (only_match u i k _ v w O Hv Hw Mv Mw) in Ne.
      rewrite Nat.eqb_refl in Ne. discriminate.
    + rewrite F. simpl. f_equal. lia.
    + rewrite find_map_keep.
      2:{ intros w. destruct (vote_id w =? vote_id v)%nat; reflexivity. }
      rewrite F. simpl. rewrite Nat.eqb_refl. simpl. f_equal. lia.
  - destruct (vt =? 0) eqn:E0; cbn [fst perform]; [rewrite F; reflexivity|].
    rewrite (find_snoc_match _ _ _ F).
    + reflexivity.
    + apply vote_matches_true. simpl. auto.
Qed.








Lemma found_value_ok s u i k :
  consistent s ->
  forall v, find (vote_matches u i k) (votes s) = Some v ->
            vote_value v = -1 \/ vote_value v = 1.
Proof. intros [_ [_ V]] v F. eapply found_values; eassumption. Qed.

Lemma one_vote_per_pair (v : Vote) : one_per_pair [v].
Proof. intros u i. simpl. destruct (same_user_item u i v); simpl; lia. Qed.

(** X12. After a vote of a valid type on a stored item, [Vote.findOne] gives
    for that user and item what was requested: no record after a request of
    0, a record of the requested value after -1 or +1. *)
Theorem vote_is_recorded (s : State) (u i : ObjectId) (k : ItemType) (vt x : Z) :
  connected s = true -> consistent s -> one_per_pair (votes s) ->
  score s i k = Some x -> vt = -1 \/ vt = 0 \/ vt = 1 ->
  user_vote (snd (run (applyVote u (Some i) k (JNum vt)) s)) u i k
  = if vt =? 0 then None else Some vt.
Proof.
  intros Hc C O Sx Hvt. rewrite (applyVote_run s u i k vt x Hc C Sx Hvt). cbn [snd].
  apply user_vote_after; [exact O|exact Hvt|apply (found_value_ok s u i k C)].
Qed.

Lemma vote_is_recorded_witness :
  connected example_post = true /\ consistent example_post /\
  one_per_pair (votes example_post) /\ score example_post 0 post_t = Some 1 /\
  user_vote (snd (run (applyVote 8 (Some 0%nat) post_t (JNum (-1))) example_post)) 8 0 post_t
  = Some (-1).
Proof.
  assert (C : consistent example_post) by concrete.
  assert (O : one_per_pair (votes example_post)) by apply one_vote_per_pair.
  split; [reflexivity|]. split; [exact C|]. split; [exact O|]. split; [reflexivity|].
  apply (vote_is_recorded example_post 8 0%nat post_t (-1) 1 eq_refl C O eq_refl).
  left. reflexivity.
Defined.







(** ** Karma follows votes, creations and deletions *)

(** On a live connection [calculateKarma] returns the karma. *)
Lemma calculateKarma_online (s : State) (a : ObjectId) :
  connected s = true -> run (calculateKarma a) s = (karma s a, s).
Proof.
  intros Hc. unfold calculateKarma, await, karma.
  online Hc. rewrite !fold_left_add. reflexivity.
Qed.

Lemma posts_rescored_absent i y ps : has_post i ps = false -> posts_rescored i y ps = ps.
Proof.
  induction ps as [|q ps IH]; simpl; [reflexivity|].
  intros H. apply orb_false_iff in H. destruct H as [Hq H].
  rewrite Hq, IH by exact H. reflexivity.
Qed.

Lemma comments_rescored_absent i y cs :
  has_comment i cs = false -> comments_rescored i y cs = cs.
Proof.
  induction cs as [|q cs IH]; simpl; [reflexivity|].
  intros H. apply orb_false_iff in H. destruct H as [Hq H].
  rewrite Hq, IH by exact H. reflexivity.
Qed.

Lemma has_post_notin i ps : ~ In i (map post_id ps) -> has_post i ps = false.
Proof.
  intros H. destruct (has_post i ps) eqn:E; [|reflexivity].
  exfalso. apply H. unfold has_post in E. apply existsb_exists in E.
  destruct E as [q [Hq E]]. apply Nat.eqb_eq in E. rewrite <- E. apply in_map, Hq.
Qed.

Lemma has_comment_notin i cs : ~ In i (map comment_id cs) -> has_comment i cs = false.
Proof.
  intros H. destruct (has_comment i cs) eqn:E; [|reflexivity].
  exfalso. apply H. unfold has_comment in E. apply existsb_exists in E.
  destruct E as [q [Hq E]]. apply Nat.eqb_eq in E. rewrite <- E. apply in_map, Hq.
Qed.

Lemma post_karma_rescored a i y ps p :
  NoDup (map post_id ps) -> find (fun q => (post_id q =? i)%nat) ps = Some p ->
  post_karma a (posts_rescored i y ps)
  = post_karma a ps + (if (post_author p =? a)%nat then y - post_votes p else 0).
Proof.
  unfold post_karma. induction ps as [|q ps IH]; simpl; [discriminate|].
  intros N F. inversion N as [|z l Hn N']; subst.
  destruct (post_id q =? i)%nat eqn:E.
  - injection F as ->. apply Nat.eqb_eq in E. subst i.
    fold (posts_rescored (post_id p) y ps).
    rewrite posts_rescored_absent by (apply has_post_notin, Hn). simpl.
    destruct (post_author p =? a)%nat; simpl; lia.
  - fold (posts_rescored i y ps). specialize (IH N' F).
    destruct (post_author q =? a)%nat; simpl; lia.
Qed.

Lemma comment_karma_rescored a i y cs c :
  NoDup (map comment_id cs) -> find (fun q => (comment_id q =? i)%nat) cs = Some c ->
  comment_karma a (comments_rescored i y cs)
  = comment_karma a cs + (if (comment_author c =? a)%nat then y - comment_votes c else 0).
Proof.
  unfold comment_karma. induction cs as [|q cs IH]; simpl; [discriminate|].
  intros N F. inversion N as [|z l Hn N']; subst.
  destruct (comment_id q =? i)%nat eqn:E.
  - injection F as ->. apply Nat.eqb_eq in E. subst i.
    fold (comments_rescored (comment_id c) y cs).
    rewrite comments_rescored_absent by (apply has_comment_notin, Hn). simpl.
    destruct (comment_author c =? a)%nat; simpl; lia.
  - fold (comments_rescored i y cs). specialize (IH N' F).
    destruct (comment_author q =? a)%nat; simpl; lia.
Qed.

Lemma karma_split s a : karma s a = post_karma a (posts s) + comment_karma a (comments s).
Proof. reflexivity. Qed.

Lemma map_post_id_write l d ps : map post_id (map (post_write l d) ps) = map post_id ps.
Proof. rewrite map_map. apply map_ext. intros q. apply post_write_id. Qed.

Lemma map_comment_id_write l d cs : map comment_id (map (comment_write l d) cs) = map comment_id cs.
Proof. rewrite map_map. apply map_ext. intros q. apply comment_write_id. Qed.

Lemma has_post_of_in i ps : In i (map post_id ps) -> has_post i ps = true.
Proof.
  intros H. apply in_map_iff in H. destruct H as [q [E Hq]].
  apply existsb_exists. exists q. split; [exact Hq|]. apply Nat.eqb_eq, E.
Qed.

Lemma has_comment_of_in i cs : In i (map comment_id cs) -> has_comment i cs = true.
Proof.
  intros H. apply in_map_iff in H. destruct H as [q [E Hq]].
  apply existsb_exists. exists q. split; [exact Hq|]. apply Nat.eqb_eq, E.
Qed.

(** The ids of the stored items stay unique, under every schedule. *)
Lemma sem_items_unique {X} (o : eff X) (s : State) :
  items_unique s -> items_unique (snd (sem o s)).
Proof.
  intros [Np Nc]. unfold items_unique.
  destruct o; simpl; unfold online;
    repeat match goal with
           | |- context [match ?x with _ => _ end] => destruct x eqn:?; simpl
           end; rewrite ?map_post_id_write, ?map_comment_id_write;
    auto using NoDup_map_filter.
  - split; [|exact Nc]. rewrite map_app. simpl. apply NoDup_snoc; [exact Np|].
    intros H. apply has_post_of_in in H. congruence.
  - split; [exact Np|]. rewrite map_app. simpl. apply NoDup_snoc; [exact Nc|].
    intros H. apply has_comment_of_in in H. congruence.
Qed.

Lemma exec_items_unique names id0 t0 schedule :
  items_unique (store (exec schedule (mkServer (boot names id0 t0) []))).
Proof.
  apply (exec_preserves items_unique).
  - intros X o s. apply sem_items_unique.
  - intros [] s H; exact H.
  - split; constructor.
Qed.

Lemma serve_all_items_unique h s : items_unique s -> items_unique (serve_all h s).
Proof.
  revert s. induction h as [|ev h IH]; intros s H; simpl; [exact H|].
  apply IH. destruct ev as [r|e]; simpl.
  - apply (run_preserves items_unique (@sem_items_unique)), H.
  - destruct e; exact H.
Qed.

Lemma example_post_unique : items_unique example_post.
Proof. split; simpl; [constructor; [intros []|constructor]|constructor]. Qed.

Lemma example_thread_unique : items_unique example_thread.
Proof. split; simpl; constructor; try (intros []); constructor. Qed.

(** X16. A vote moves the karma of the item's author, as [calculateKarma]
    returns it, by the delta of the transition table, and the karma of no
    other user. *)
Theorem vote_moves_author_karma (s : State) (u i : ObjectId) (k : ItemType) (vt x : Z)
    (author : ObjectId) :
  connected s = true -> consistent s -> items_unique s ->
  score s i k = Some x -> item_author s i k = Some author ->
  vt = -1 \/ vt = 0 \/ vt = 1 ->
  let d := snd (transition (user_vote s u i k) vt) in
  let s' := snd (run (applyVote u (Some i) k (JNum vt)) s) in
  forall a,
    fst (run (calculateKarma a) s')
    = fst (run (calculateKarma a) s) + (if (author =? a)%nat then d else 0).
Proof.
  intros Hc C [Np Nc] Sx Au Hvt. cbv zeta. intros a.
  rewrite (applyVote_run s u i k vt x Hc C Sx Hvt). cbn [snd].
  rewrite !calculateKarma_online by exact Hc. cbn [fst].
  rewrite !karma_split. unfold after_vote. cbn [posts comments]. unfold user_vote.
  set (d := snd (transition _ vt)).
  unfold score in Sx. unfold item_author in Au. destruct k; simpl.
  - destruct (find _ (posts s)) as [p|] eqn:F; [|discriminate]. simpl in Sx, Au.
    injection Sx as <-. injection Au as <-.
    rewrite (post_karma_rescored a i _ _ p Np F).
    destruct (post_author p =? a)%nat; lia.
  - destruct (find _ (comments s)) as [p|] eqn:F; [|discriminate]. simpl in Sx, Au.
    injection Sx as <-. injection Au as <-.
    rewrite (comment_karma_rescored a i _ _ p Nc F).
    destruct (comment_author p =? a)%nat; lia.
Qed.

Lemma vote_moves_author_karma_witness :
  connected example_post = true /\ consistent example_post /\ items_unique example_post /\
  score example_post 0 post_t = Some 1 /\ item_author example_post 0 post_t = Some 7%nat /\
  fst (run (calculateKarma 7)
           (snd (run (applyVote 8 (Some 0%nat) post_t (JNum (-1))) example_post)))
  = fst (run (calculateKarma 7) example_post) + -1 /\
  fst (run (calculateKarma 8)
           (snd (run (applyVote 8 (Some 0%nat) post_t (JNum (-1))) example_post)))
  = fst (run (calculateKarma 8) example_post) + 0.
Proof.
  assert (C : consistent example_post) by concrete.
  pose proof (vote_moves_author_karma example_post 8 0%nat post_t (-1) 1 7%nat eq_refl C
                example_post_unique eq_refl eq_refl (or_introl eq_refl)) as H.
  split; [reflexivity|]. split; [exact C|]. split; [exact example_post_unique|].
  split; [reflexivity|]. split; [reflexivity|]. split; [exact (H 7%nat)|exact (H 8%nat)].
Defined.

(** X17. The creation of a post in a known community, or of a comment on a
    stored post, raises the karma of its author by 1, the score of the own
    upvote, and the karma of no other user.  The creation of a post asks
    for no stored post. *)
Theorem creation_raises_karma (s : State) (u : ObjectId)
    (title content community text : string) (i : ObjectId) :
  connected s = true -> ids_ok s ->
  (find (String.eqb community) (communities s) <> None ->
   forall a,
     fst (run (calculateKarma a) (snd (run (post_create u [] title content community) s)))
     = fst (run (calculateKarma a) s) + (if (u =? a)%nat then 1 else 0)) /\
  (resolves s (Some i) post_t = true ->
   forall a,
     fst (run (calculateKarma a) (snd (run (comment_create u [] (Some i) text) s)))
     = fst (run (calculateKarma a) s) + (if (u =? a)%nat then 1 else 0)).
Proof.
  intros Hc I. split.
  - intros Hm a. rewrite (post_create_run s u title content community Hc I Hm). cbn [snd].
    rewrite !calculateKarma_online by exact Hc. cbn [fst].
    rewrite !karma_split. cbn [posts comments]. unfold post_karma, comment_karma.
    rewrite !filter_app. simpl.
    destruct (u =? a)%nat; simpl; rewrite ?map_app, ?app_nil_r; simpl; rewrite ?sumZ_snoc; lia.
  - intros Hp a. unfold resolves in Hp.
    destruct (find (fun p => (post_id p =? i)%nat) (posts s)) as [p|] eqn:F; [|discriminate].
    rewrite (comment_create_run s u i p text Hc I F). cbn [snd].
    rewrite !calculateKarma_online by exact Hc. cbn [fst].
    rewrite !karma_split. cbn [posts comments]. unfold post_karma, comment_karma.
    rewrite !filter_app. simpl.
    destruct (u =? a)%nat; simpl; rewrite ?map_app, ?app_nil_r; simpl; rewrite ?sumZ_snoc; lia.
Qed.

Lemma creation_raises_karma_witness :
  let s0 := boot ["m"] 0 0 in
  connected s0 = true /\ ids_ok s0 /\
  find (String.eqb "m") (communities s0) <> None /\
  fst (run (calculateKarma 7) (snd (run (post_create 7 [] "t" "x" "m") s0)))
  = fst (run (calculateKarma 7) s0) + 1 /\
  connected example_post = true /\ ids_ok example_post /\
  resolves example_post (Some 0%nat) post_t = true /\
  fst (run (calculateKarma 7) (snd (run (comment_create 8 [] (Some 0%nat) "hi") example_post)))
  = fst (run (calculateKarma 7) example_post) + 0.
Proof.
  assert (I0 : ids_ok (boot ["m"] 0 0)) by apply (boot_consistent ["m"] 0%nat 0%nat).
  assert (I : ids_ok example_post)
    by (assert (C : consistent example_post) by concrete; apply C).
  assert (M : find (String.eqb "m") (communities (boot ["m"] 0 0)) <> None) by discriminate.
  pose proof (proj1 (creation_raises_karma (boot ["m"] 0 0) 7 "t" "x" "m" "" 0%nat eq_refl I0)
                M 7%nat) as H1.
  pose proof (proj2 (creation_raises_karma example_post 8 "u" "y" "m" "hi" 0%nat eq_refl I)
                eq_refl 7%nat) as H2.
  split; [reflexivity|]. split; [exact I0|]. split; [exact M|]. split; [exact H1|].
  split; [reflexivity|]. split; [exact I|]. split; [reflexivity|exact H2].
Defined.

Lemma post_karma_remove a i ps p :
  NoDup (map post_id ps) -> find (fun q => (post_id q =? i)%nat) ps = Some p ->
  post_karma a (filter (fun q => negb (post_id q =? i)%nat) ps)
  = post_karma a ps - (if (post_author p =? a)%nat then post_votes p else 0).
Proof.
  unfold post_karma. induction ps as [|q ps IH]; simpl; [discriminate|].
  intros N F. inversion N as [|z l Hn N']; subst.
  destruct (post_id q =? i)%nat eqn:E; simpl.
  - injection F as ->. apply Nat.eqb_eq in E. subst i.
    replace (filter (fun q => negb (post_id q =? post_id p)%nat) ps) with ps.
    + destruct (post_author p =? a)%nat; simpl; lia.
    + symmetry. apply forallb_filter_id. apply forallb_forall. intros q Hq.
      apply negb_true_iff, Nat.eqb_neq. intros Eq. apply Hn. rewrite <- Eq. apply in_map, Hq.
  - specialize (IH N' F). destruct (post_author q =? a)%nat; simpl; lia.
Qed.

Lemma comment_karma_remove a i cs c :
  NoDup (map comment_id cs) -> find (fun q => (comment_id q =? i)%nat) cs = Some c ->
  comment_karma a (filter (fun q => negb (comment_id q =? i)%nat) cs)
  = comment_karma a cs - (if (comment_author c =? a)%nat then comment_votes c else 0).
Proof.
  unfold comment_karma. induction cs as [|q cs IH]; simpl; [discriminate|].
  intros N F. inversion N as [|z l Hn N']; subst.
  destruct (comment_id q =? i)%nat eqn:E; simpl.
  - injection F as ->. apply Nat.eqb_eq in E. subst i.
    replace (filter (fun q => negb (comment_id q =? comment_id c)%nat) cs) with cs.
    + destruct (comment_author c =? a)%nat; simpl; lia.
    + symmetry. apply forallb_filter_id. apply forallb_forall. intros q Hq.
      apply negb_true_iff, Nat.eqb_neq. intros Eq. apply Hn. rewrite <- Eq. apply in_map, Hq.
  - specialize (IH N' F). destruct (comment_author q =? a)%nat; simpl; lia.
Qed.

(** X18. The deletion of a post takes from every user's karma the score of the
    post, if the user authored it, and the scores of the user's comments on
    the post; the deletion of a comment takes the comment's score from its
    author's karma and nothing from anyone else's. *)
Theorem deletion_lowers_karma (s : State) (u i : ObjectId) (p : Post) (c : Comment) :
  items_unique s ->
  (fst (run (post_delete u (Some i)) s) = json 200 (Message "Post deleted") ->
   find (fun q => (post_id q =? i)%nat) (posts s) = Some p ->
   forall a,
     fst (run (calculateKarma a) (snd (run (post_delete u (Some i)) s)))
     = fst (run (calculateKarma a) s)
       - (if (post_author p =? a)%nat then post_votes p else 0)
       - comment_karma a (filter (fun q => (comment_post q =? i)%nat) (comments s))) /\
  (fst (run (comment_delete u (Some i)) s) = json 200 (Message "Comment deleted") ->
   find (fun q => (comment_id q =? i)%nat) (comments s) = Some c ->
   forall a,
     fst (run (calculateKarma a) (snd (run (comment_delete u (Some i)) s)))
     = fst (run (calculateKarma a) s)
       - (if (comment_author c =? a)%nat then comment_votes c else 0)).
Proof.
  intros [Np Nc].
  assert (On : forall (A : Type) (q : prog A) t, connected (snd (run q t)) = connected t).
  { intros A q t. apply (run_preserves (fun t' => connected t' = connected t)); auto.
    intros X o t' E. rewrite sem_connected. exact E. }
  split; intros H F a.
  - assert (Hc : connected s = true).
    { destruct (connected s) eqn:Hc; [reflexivity|]. exfalso. revert H.
      unfold post_delete, await, catch_404. offline Hc. discriminate. }
    destruct (delete_done s u i) as [D _]. destruct (D H) as [Dp [Dc _]].
    rewrite !calculateKarma_online by (rewrite ?On; exact Hc). cbn [fst].
    rewrite !karma_split, Dp, Dc, (post_karma_remove a i _ p Np F).
    unfold comment_karma at 1 2.
    rewrite (sumZ_filter_split comment_votes (fun q => (comment_post q =? i)%nat)
               (filter (fun c0 => (comment_author c0 =? a)%nat) (comments s))).
    unfold comment_karma.
    rewrite (filter_comm (fun q => (comment_post q =? i)%nat)).
    rewrite (filter_comm (fun q => negb (comment_post q =? i)%nat)). lia.
  - assert (Hc : connected s = true).
    { destruct (connected s) eqn:Hc; [reflexivity|]. exfalso. revert H.
      unfold comment_delete, await, catch_404. offline Hc. discriminate. }
    destruct (delete_done s u i) as [_ D]. destruct (D H) as [Dp [Dc _]].
    rewrite !calculateKarma_online by (rewrite ?On; exact Hc). cbn [fst].
    rewrite !karma_split, Dp, Dc, (comment_karma_remove a i _ c Nc F). lia.
Qed.

Lemma deletion_lowers_karma_witness :
  items_unique example_thread /\
  fst (run (post_delete 7 (Some 0%nat)) example_thread) = json 200 (Message "Post deleted") /\
  fst (run (calculateKarma 8) (snd (run (post_delete 7 (Some 0%nat)) example_thread)))
  = fst (run (calculateKarma 8) example_thread) - 0 - 1 /\
  fst (run (comment_delete 8 (Some 2%nat)) example_thread)
  = json 200 (Message "Comment deleted") /\
  fst (run (calculateKarma 8) (snd (run (comment_delete 8 (Some 2%nat)) example_thread)))
  = fst (run (calculateKarma 8) example_thread) - 1.
Proof.
  pose proof (proj1 (deletion_lowers_karma example_thread 7 0%nat
                       (mkPost 0 "t" "x" 7 "m" 1 false 0) (mkComment 2 "hi" 8 0 1 false 0)
                       example_thread_unique) eq_refl eq_refl 8%nat) as P.
  pose proof (proj2 (deletion_lowers_karma example_thread 8 2%nat
                       (mkPost 0 "t" "x" 7 "m" 1 false 0) (mkComment 2 "hi" 8 0 1 false 0)
                       example_thread_unique) eq_refl eq_refl 8%nat) as C.
  split; [exact example_thread_unique|]. split; [reflexivity|]. split; [exact P|].
  split; [reflexivity|exact C].
Defined.




(** ** What every request keeps *)

Lemma has_post_write j l d ps : has_post j (map (post_write l d) ps) = has_post j ps.
Proof.
  apply has_post_same_ids. rewrite map_map. apply map_ext. intros q. apply post_write_id.
Qed.

Lemma has_post_grow j ps l : has_post j ps = true -> has_post j (ps ++ l) = true.
Proof. unfold has_post. rewrite existsb_app. intros ->. reflexivity. Qed.

Lemma comment_write_post l d c : comment_post (comment_write l d c) = comment_post c.
Proof. unfold comment_write. destruct (comment_id c =? comment_id d)%nat; reflexivity. Qed.

Lemma has_post_remove_other i j ps :
  has_post j ps = true -> j <> i ->
  has_post j (filter (fun q => negb (post_id q =? i)%nat) ps) = true.
Proof.
  unfold has_post. intros H Ne. apply existsb_exists in H. destruct H as [q [Hq E]].
  apply existsb_exists. exists q. split; [|exact E]. apply filter_In. split; [exact Hq|].
  apply Nat.eqb_eq in E. apply negb_true_iff, Nat.eqb_neq. congruence.
Qed.

(** A comment of the new database comes from the old one, or is the new one. *)
Ltac parents H :=
  unfold parents_stored in *; simpl; rewrite Forall_forall in *;
  let c := fresh "c" in let Hin := fresh "Hin" in
  intros c Hin;
  repeat match type of Hin with
         | In _ (map _ _) =>
             let c0 := fresh "c" in let E := fresh "E" in
             apply in_map_iff in Hin; destruct Hin as [c0 [E Hin]]; subst c;
             rewrite ?comment_write_post
         | In _ (filter _ _) => apply filter_In in Hin; destruct Hin as [Hin ?]
         | In _ (_ ++ _) => apply in_app_iff in Hin; destruct Hin as [Hin|[Hin|[]]]
         end;
  rewrite ?has_post_write;
  try (subst; simpl; rewrite ?has_post_write);
  first [ apply H; assumption
        | apply has_post_grow, H; assumption
        | idtac ].

(** Every handler keeps the comments on stored posts. *)
Lemma handler_parents (r : request) (s : State) :
  parents_stored s -> parents_stored (snd (run (handler r) s)).
Proof.
  intros H. destruct (connected s) eqn:Hc.
  2:{ destruct r; cbn [handler];
      unfold post_create, post_update, post_delete, post_vote, post_vote_apply,
        post_vote_finish, comment_create, comment_update, comment_delete, comment_vote,
        comment_vote_apply, comment_vote_finish, await, catch_404, catch_500;
      repeat (offline Hc; try split_match); exact H. }
  destruct r; cbn [handler];
    unfold post_create, post_update, post_delete, post_vote, post_vote_apply,
      post_vote_finish, comment_create, comment_update, comment_delete, comment_vote,
      comment_vote_apply, comment_vote_finish, await, catch_404, catch_500;
    repeat (online Hc; try split_match); try exact H; parents H.
  all: try match goal with
       | F : find _ (posts _) = Some ?p |- has_post (post_id ?p) _ = true =>
           apply find_some in F; destruct F as [F _]; apply existsb_exists;
           exists p; split; [exact F|apply Nat.eqb_refl]
       end.
  apply has_post_remove_other; [apply H, Hin|].
  apply negb_true_iff, Nat.eqb_neq in H0. exact H0.
Qed.

(** X20. When requests are served one at a time from an empty database, every
    stored comment is a comment on a stored post: the deletion of a post
    takes its comments with it, and a comment is created on a stored post
    only. *)
Theorem comments_keep_parents (names : list string) (id0 : ObjectId) (t0 : Time)
    (h : list event) :
  parents_stored (serve_all h (boot names id0 t0)).
Proof.
  assert (G : forall h s, parents_stored s -> parents_stored (serve_all h s)).
  { clear. intros h. induction h as [|ev h IH]; intros s H; simpl; [exact H|].
    apply IH. destruct ev as [r|e]; simpl; [apply handler_parents, H|].
    destruct e; exact H. }
  apply G. constructor.
Qed.

Lemma post_write_identity l d q : post_identity (post_write l d q) = post_identity q.
Proof. unfold post_write. destruct (post_id q =? post_id d)%nat; reflexivity. Qed.

Lemma comment_write_identity l d c : comment_identity (comment_write l d c) = comment_identity c.
Proof. unfold comment_write. destruct (comment_id c =? comment_id d)%nat; reflexivity. Qed.

Lemma identities_kept_refl s : identities_kept s s.
Proof. split; apply Forall_forall; intros q Hq; left; apply in_map, Hq. Qed.

(** Likewise for the identity of an item. *)
Ltac identities :=
  split; simpl; apply Forall_forall;
  let c := fresh "c" in let Hin := fresh "Hin" in
  intros c Hin;
  repeat match type of Hin with
         | In _ (map _ _) =>
             let c0 := fresh "c" in let E := fresh "E" in
             apply in_map_iff in Hin; destruct Hin as [c0 [E Hin]]; subst c;
             rewrite ?post_write_identity, ?comment_write_identity, ?post_write_id,
               ?comment_write_id
         | In _ (filter _ _) => apply filter_In in Hin; destruct Hin as [Hin ?]
         | In _ (_ ++ _) => apply in_app_iff in Hin; destruct Hin as [Hin|[Hin|[]]]
         end;
  first [ left; apply in_map; assumption
        | right; subst; reflexivity ].

(** X21. No request changes the id, the author, the community or parent post,
    or the creation time of an item: every item stored after a request has
    the identity of an item stored before it, or is the one item the request
    created, under the next id of the generator. *)
Theorem requests_keep_identities (r : request) (s : State) :
  identities_kept s (snd (run (handler r) s)).
Proof.
  destruct (connected s) eqn:Hc.
  2:{ destruct r; cbn [handler];
      unfold post_create, post_update, post_delete, post_vote, post_vote_apply,
        post_vote_finish, comment_create, comment_update, comment_delete, comment_vote,
        comment_vote_apply, comment_vote_finish, await, catch_404, catch_500;
      repeat (offline Hc; try split_match); apply identities_kept_refl. }
  destruct r; cbn [handler];
    unfold post_create, post_update, post_delete, post_vote, post_vote_apply,
      post_vote_finish, comment_create, comment_update, comment_delete, comment_vote,
      comment_vote_apply, comment_vote_finish, await, catch_404, catch_500;
    repeat (online Hc; try split_match); try apply identities_kept_refl; identities.
Qed.

Lemma sum_bounded (vs : list Vote) :
  values_ok vs -> Z.abs (sumZ (map vote_value vs)) <= Z.of_nat (List.length vs).
Proof.
  unfold values_ok. induction vs as [|v vs IH]; intros V; [simpl; lia|].
  inversion V as [|x l Hv V']; subst. specialize (IH V').
  cbn [map sumZ fold_right List.length]. fold (sumZ (map vote_value vs)). lia.
Qed.

(** X22. When requests are served one at a time from an empty database,
    each to completion and with the connection as it is when the request
    starts, the absolute value of the score of a post or comment is at most
    the number of Vote records on it. *)
Theorem score_bounded_by_votes (names : list string) (id0 : ObjectId) (t0 : Time)
    (h : list event) :
  let s := serve_all h (boot names id0 t0) in
  Forall (fun p => Z.abs (post_votes p)
                   <= Z.of_nat (List.length (filter (vote_on (post_id p) post_t) (votes s))))
         (posts s) /\
  Forall (fun c => Z.abs (comment_votes c)
                   <= Z.of_nat (List.length (filter (vote_on (comment_id c) comment_t) (votes s))))
         (comments s).
Proof.
  cbv zeta. destruct (serve_all_consistent h _ (boot_consistent names id0 t0)) as [[Sp Sc] [_ V]].
  split; [eapply Forall_impl; [|exact Sp]|eapply Forall_impl; [|exact Sc]];
    intros q ->; unfold vote_sum; apply sum_bounded, values_ok_filter, V.
Qed.

(** ** The profile route *)

Lemma run_bind {A B} (p : prog A) (k : A -> prog B) (s : State) :
  run (bind p k) s = run (k (fst (run p s))) (snd (run p s)).
Proof.
  revert s. induction p as [a | X o f IH]; intros s; simpl; [reflexivity|].
  destruct (sem o s) as [r s']. apply IH.
Qed.

(** X23. The profile of a user that [User.findOne] has found is answered with
    the karma [calculateKarma] computes, the sum of the scores of the user's
    posts and comments; when the connection is down by then the profile is
    still answered, with karma 0. *)
Theorem profile_karma {U} (user_id : U -> ObjectId) (s : State) (user : U) :
  (connected s = true ->
   run (user_get user_id (Ok (Some user))) s = (ProfileJson user (karma s (user_id user)), s)) /\
  (connected s = false ->
   run (user_get user_id (Ok (Some user))) s = (ProfileJson user 0, s)).
Proof.
  split; intros Hc; unfold user_get; rewrite run_bind.
  - rewrite calculateKarma_online by exact Hc. reflexivity.
  - unfold calculateKarma, await. offline Hc. reflexivity.
Qed.

Lemma profile_karma_witness :
  connected example_thread = true /\
  run (user_get (fun u : ObjectId => u) (Ok (Some 8%nat))) example_thread
  = (ProfileJson 8%nat 1, example_thread) /\
  run (user_get (fun u : ObjectId => u) (Ok (Some 8%nat))) (set_connected example_thread false)
  = (ProfileJson 8%nat 0, set_connected example_thread false).
Proof.
  split; [reflexivity|]. split.
  - apply (proj1 (profile_karma (fun u : ObjectId => u) example_thread 8%nat)). reflexivity.
  - apply (proj2 (profile_karma (fun u : ObjectId => u)
                    (set_connected example_thread false) 8%nat)). reflexivity.
Defined.
